(** * pycoin.key.Key: a shallow embedding and its verified properties

    The development follows [pycoin/key/Key.py].  A [Key] object holds a
    secret exponent, a public pair or a hash160, a compression preference
    and two memoization slots.  The elliptic-curve generator and the
    functions imported from [pycoin.encoding], [pycoin.serialize] and
    [pycoin.satoshi.der] are collaborators of the module: they are taken as
    records of functions, and every call to one of them is logged, so that
    statements such as "the verify primitive is not called" or "the hash is
    computed once" can be read off the log. *)

From Stdlib Require Import ZArith Lia List Bool.
From Stdlib Require Import Strings.Byte.
From stdpp Require Import base option list strings gmap.

Local Open Scope Z_scope.

(** ** Python values *)

(** [bytes] objects; the empty one is falsy. *)
Definition bytes := list byte.

#[global] Instance byte_eq_dec : EqDecision byte := Byte.byte_eq_dec.

(** A public pair is a 2-tuple whose coordinates may be [None]
    (the point at infinity is [(None, None)]). *)
Definition pair_t := (option Z * option Z)%type.

(** Truthiness, as used by [if x:], [x and y], [x or y]. *)
Definition truthy_int (o : option Z) : bool :=
  match o with
  | Some n => negb (n =? 0)
  | None => false
  end.

Definition truthy_bytes (o : option bytes) : bool :=
  match o with
  | Some (_ :: _) => true
  | _ => false
  end.

Definition truthy_str (o : option string) : bool :=
  match o with
  | Some (String _ _) => true
  | _ => false
  end.

Definition truthy_bool (o : option bool) : bool :=
  match o with
  | Some b => b
  | None => false
  end.

(** Objects without [__bool__] or [__len__] of length zero are truthy:
    a generator is a curve point, a 2-tuple. *)
Definition truthy_obj {A} (o : option A) : bool :=
  match o with
  | Some _ => true
  | None => false
  end.

Definition is_None {A} (o : option A) : bool :=
  match o with
  | Some _ => false
  | None => true
  end.

(** [l.count(None)], on the list of "is this element None" flags. *)
Definition count_None (l : list bool) : nat :=
  length (List.filter (fun b => b) l).

(** [a or b] on optional bytes. *)
Definition or_bytes (a b : option bytes) : option bytes :=
  if truthy_bytes a then a else b.

(** [None in pair] *)
Definition None_in (p : pair_t) : bool :=
  is_None (fst p) || is_None (snd p).

(** ** Exceptions *)

Inductive exn :=
| ValueError (msg : string)
| InvalidPublicPairError          (* subclass of ValueError *)
| InvalidSecretExponentError      (* subclass of ValueError *)
| RuntimeError (msg : string)
| AttributeError (msg : string)
| TypeError (msg : string)
| ReferenceError                  (* a reference to no object *)
| ImportedError (fn : string).    (* raised inside an imported function *)

Inductive result (A : Type) :=
| Ok (a : A)
| Raise (e : exn).
Arguments Ok {A} a.
Arguments Raise {A} e.

Definition arity_msg : string :=
  "exactly one of secret_exponent, public_pair, hash160 must be passed.".
Definition no_generator_msg : string :=
  "generator not specified when secret exponent specified".
Definition verify_generator_msg : string := "generator must be specified".
Definition not_private_msg : string := "Key must be private to be able to sign".
Definition wif_prefix_msg : string := "wif_prefix not set".
Definition sec_prefix_msg : string := "sec_prefix not set".
Definition address_prefix_msg : string := "address_prefix not set".

(** ** Collaborators *)

(** The curve generator: the methods of it that [Key] calls. *)
Module Generator.
Record t := {
  order : Z;
  mul : Z -> pair_t;                         (* secret_exponent * generator *)
  contains_point : Z -> Z -> bool;
  sign : Z -> Z -> Z * Z;
  verify : pair_t -> Z -> Z * Z -> bool;
  possible_public_pairs_for_signature : Z -> Z * Z -> list pair_t
}.
End Generator.

(** The functions [Key.py] imports; [None] stands for a raised exception. *)
Module Imports.
Record t := {
  from_bytes_32 : bytes -> option Z;
  hash160 : bytes -> bytes;
  hash160_sec_to_bitcoin_address : bytes -> bytes -> string;
  is_sec_compressed : bytes -> bool;
  public_pair_to_sec : pair_t -> bool -> bytes;
  public_pair_to_hash160_sec : pair_t -> bool -> bytes;
  sec_to_public_pair : bytes -> Generator.t -> option pair_t;
  secret_exponent_to_wif : Z -> bool -> bytes -> string;
  b2h : bytes -> string;
  sigencode_der : Z -> Z -> bytes;
  sigdecode_der : bytes -> option (Z * Z)
}.
End Imports.

(** One entry of the log of calls made to the collaborators. *)
Inductive ext_call :=
| call_from_bytes_32 (h : bytes)
| call_hash160 (b : bytes)
| call_hash160_sec_to_bitcoin_address (h : bytes) (prefix : bytes)
| call_public_pair_to_sec (p : pair_t) (compressed : bool)
| call_public_pair_to_hash160_sec (p : pair_t) (compressed : bool)
| call_secret_exponent_to_wif (s : Z) (compressed : bool) (prefix : bytes)
| call_b2h (b : bytes)
| call_sigencode_der (r s : Z)
| call_sigdecode_der (sig : bytes)
| call_sign (s val : Z)
| call_verify (p : pair_t) (val : Z) (rs : Z * Z)
| call_possible_public_pairs_for_signature (val : Z) (rs : Z * Z).

(** ** Methods as state transformers

    A method runs on a state [S] (the receiver's attributes, or the whole
    heap), returns a value or raises, and logs its calls to the
    collaborators.  An exception keeps the state reached so far, as in
    Python. *)

Record outcome (E S A : Type) := Outcome {
  value : result A;
  state : S;
  calls : list E
}.
Arguments Outcome {E S A} value state calls.
Arguments value {E S A} o.
Arguments state {E S A} o.
Arguments calls {E S A} o.

(** [E] is the type of log entries, [S] of states. *)
Definition M (E S A : Type) : Type := S -> outcome E S A.

#[global] Instance M_ret {E S} : MRet (M E S) :=
  fun A a s => Outcome (Ok a) s [].

#[global] Instance M_bind {E S} : MBind (M E S) :=
  fun A B f m s =>
    match m s with
    | Outcome (Ok a) s' l =>
        match f a s' with
        | Outcome v s'' l' => Outcome v s'' (l ++ l')
        end
    | Outcome (Raise e) s' l => Outcome (Raise e) s' l
    end.

Definition raise {E S A} (e : exn) : M E S A :=
  fun s => Outcome (Raise e) s [].

Definition get {E S} : M E S S :=
  fun s => Outcome (Ok s) s [].

Definition put {E S} (s' : S) : M E S unit :=
  fun _ => Outcome (Ok tt) s' [].

(** A call to a collaborator: logged, then its value returned. *)
Definition ext {S A} (c : ext_call) (v : A) : M ext_call S A :=
  fun s => Outcome (Ok v) s [c].

(** The same for a collaborator that may raise. *)
Definition ext_partial {S A} (c : ext_call) (fn : string) (v : option A)
  : M ext_call S A :=
  fun s =>
    match v with
    | Some a => Outcome (Ok a) s [c]
    | None => Outcome (Raise (ImportedError fn)) s [c]
    end.

(** ** The Key class *)

Module Key.

(** Class attributes, set by [make_subclass]. *)
Record class := {
  wif_prefix : option bytes;
  sec_prefix : option string;
  address_prefix : option bytes
}.

Definition Key : class :=
  {| wif_prefix := None; sec_prefix := None; address_prefix := None |}.

Definition make_subclass (class_ : class)
    (wif_prefix : bytes) (sec_prefix : string) (address_prefix : bytes) : class :=
  {| wif_prefix := Some wif_prefix;
     sec_prefix := Some sec_prefix;
     address_prefix := Some address_prefix |}.

(** Instance attributes. *)
Record t := {
  __class__ : class;
  _prefer_uncompressed : bool;
  _secret_exponent : option Z;
  _generator : option Generator.t;
  _public_pair : option pair_t;
  _hash160_uncompressed : option bytes;
  _hash160_compressed : option bytes
}.

Definition set_public_pair (self : t) (p : option pair_t) : t :=
  {| __class__ := __class__ self;
     _prefer_uncompressed := _prefer_uncompressed self;
     _secret_exponent := _secret_exponent self;
     _generator := _generator self;
     _public_pair := p;
     _hash160_uncompressed := _hash160_uncompressed self;
     _hash160_compressed := _hash160_compressed self |}.

Definition set_hash160_uncompressed (self : t) (h : option bytes) : t :=
  {| __class__ := __class__ self;
     _prefer_uncompressed := _prefer_uncompressed self;
     _secret_exponent := _secret_exponent self;
     _generator := _generator self;
     _public_pair := _public_pair self;
     _hash160_uncompressed := h;
     _hash160_compressed := _hash160_compressed self |}.

Definition set_hash160_compressed (self : t) (h : option bytes) : t :=
  {| __class__ := __class__ self;
     _prefer_uncompressed := _prefer_uncompressed self;
     _secret_exponent := _secret_exponent self;
     _generator := _generator self;
     _public_pair := _public_pair self;
     _hash160_uncompressed := _hash160_uncompressed self;
     _hash160_compressed := h |}.

(** [Key.__init__], lines 57-87.  The object under construction is
    returned; an exception leaves no object behind. *)
Definition __init__ (class_ : class)
    (secret_exponent : option Z) (generator : option Generator.t)
    (public_pair : option pair_t) (hash160 : option bytes)
    (prefer_uncompressed is_compressed : option bool)
    (is_pay_to_script : bool) : result t :=
  let is_compressed :=
    match is_compressed with
    | None => if truthy_bytes hash160 then false else true
    | Some b => b
    end in
  if negb (count_None [is_None secret_exponent; is_None public_pair; is_None hash160]
           =? 2)%nat
  then Raise (ValueError arity_msg)
  else if truthy_int secret_exponent && negb (truthy_obj generator)
  then Raise (ValueError no_generator_msg)
  else
    let prefer_uncompressed :=
      match prefer_uncompressed with
      | None => negb is_compressed
      | Some b => b
      end in
    let self :=
      {| __class__ := class_;
         _prefer_uncompressed := prefer_uncompressed;
         _secret_exponent := secret_exponent;
         _generator := generator;
         _public_pair := public_pair;
         _hash160_uncompressed := None;
         _hash160_compressed := None |} in
    let self :=
      if truthy_bytes hash160 then
        if is_compressed then set_hash160_compressed self hash160
        else set_hash160_uncompressed self hash160
      else self in
    let derived : result t :=
      match _public_pair self, _secret_exponent self with
      | None, Some s =>
          if s <? 1 then Raise InvalidSecretExponentError
          else match _generator self with
               | None => Raise (AttributeError "'NoneType' object has no attribute 'order'")
               | Some g =>
                   if s >=? Generator.order g then Raise InvalidSecretExponentError
                   else Ok (set_public_pair self (Some (Generator.mul g s)))
               end
      | _, _ => Ok self
      end in
    match derived with
    | Raise e => Raise e
    | Ok self =>
        match _public_pair self with
        | Some p =>
            if None_in p
               || match _generator self, p with
                  | Some g, (Some x, Some y) => negb (Generator.contains_point g x y)
                  | _, _ => false
                  end
            then Raise InvalidPublicPairError
            else Ok self
        | None => Ok self
        end
    end.

(** *** Methods (lines 97-260) *)

Section methods.

Variable imp : Imports.t.

Local Abbreviation M := (M ext_call t).
Local Abbreviation get := (@get ext_call t).

(** [_use_uncompressed], lines 255-260. *)
Definition _use_uncompressed (use_uncompressed : option bool) : M bool :=
  self ← get;
  if truthy_bool use_uncompressed then mret true
  else if is_None use_uncompressed then mret (_prefer_uncompressed self)
  else mret false.

Definition secret_exponent : M (option Z) :=
  self ← get; mret (_secret_exponent self).

Definition is_private : M bool :=
  s ← secret_exponent; mret (negb (is_None s)).

Definition public_pair : M (option pair_t) :=
  self ← get; mret (_public_pair self).

(** [wif], lines 106-119. *)
Definition wif (use_uncompressed : option bool) (wif_prefix : option bytes)
  : M (option string) :=
  secret_exponent ← secret_exponent;
  match secret_exponent with
  | None => mret None
  | Some s =>
      self ← get;
      match or_bytes wif_prefix (Key.wif_prefix (__class__ self)) with
      | None => raise (ValueError wif_prefix_msg)
      | Some wif_prefix =>
          u ← _use_uncompressed use_uncompressed;
          w ← ext (call_secret_exponent_to_wif s (negb u) wif_prefix)
                  (Imports.secret_exponent_to_wif imp s (negb u) wif_prefix);
          mret (Some w)
      end
  end.

(** [sec], lines 127-135: the encoding is recomputed at every call. *)
Definition sec (use_uncompressed : option bool) : M (option bytes) :=
  public_pair ← public_pair;
  match public_pair with
  | None => mret None
  | Some p =>
      u ← _use_uncompressed use_uncompressed;
      b ← ext (call_public_pair_to_sec p (negb u))
              (Imports.public_pair_to_sec imp p (negb u));
      mret (Some b)
  end.

(** [sec_as_hex], lines 137-149. *)
Definition sec_as_hex (use_uncompressed : option bool) (sec_prefix : option string)
  : M (option string) :=
  sec ← sec use_uncompressed;
  match sec with
  | None => mret None
  | Some sec =>
      self ← get;
      let sec_prefix :=
        if is_None sec_prefix then Key.sec_prefix (__class__ self) else sec_prefix in
      match sec_prefix with
      | None => raise (ValueError sec_prefix_msg)
      | Some sec_prefix =>
          hex ← ext (call_b2h sec) (Imports.b2h imp sec);
          mret (Some (sec_prefix +:+ hex))
      end
  end.

(** [hash160(sec)] of the import, on the value [sec] returned. *)
Definition imported_hash160 (sec : option bytes) : M bytes :=
  match sec with
  | Some b => ext (call_hash160 b) (Imports.hash160 imp b)
  | None => raise (TypeError "hash160 of None")
  end.

(** [hash160], lines 151-169. *)
Definition hash160 (use_uncompressed : option bool) : M (option bytes) :=
  use_uncompressed ← _use_uncompressed use_uncompressed;
  public_pair ← public_pair;
  if is_None public_pair then
    self ← get;
    if (use_uncompressed : bool) then mret (_hash160_uncompressed self)
    else mret (_hash160_compressed self)
  else if (use_uncompressed : bool) then
    self ← get;
    ((if is_None (_hash160_uncompressed self) then
       s ← sec (Some use_uncompressed);
       h ← imported_hash160 s;
       self ← get;
       put (set_hash160_uncompressed self (Some h))
     else mret tt) : M unit);;
    self ← get;
    mret (_hash160_uncompressed self)
  else
    self ← get;
    ((if is_None (_hash160_compressed self) then
       s ← sec (Some use_uncompressed);
       h ← imported_hash160 s;
       self ← get;
       put (set_hash160_compressed self (Some h))
     else mret tt) : M unit);;
    self ← get;
    mret (_hash160_compressed self).

(** [address], lines 171-182. *)
Definition address (use_uncompressed : option bool) (address_prefix : option bytes)
  : M (option string) :=
  hash160 ← hash160 use_uncompressed;
  if truthy_bytes hash160 then
    self ← get;
    match or_bytes address_prefix (Key.address_prefix (__class__ self)), hash160 with
    | None, _ => raise (ValueError address_prefix_msg)
    | Some address_prefix, Some h =>
        a ← ext (call_hash160_sec_to_bitcoin_address h address_prefix)
                (Imports.hash160_sec_to_bitcoin_address imp h address_prefix);
        mret (Some a)
    | Some _, None => mret None
    end
  else mret None.

(** [as_text], lines 186-195. *)
Definition as_text (address_prefix : option bytes) (sec_prefix : option string)
    (wif_prefix : option bytes) : M (option string) :=
  s ← secret_exponent;
  if truthy_int s then wif None wif_prefix
  else
    sec_hex ← sec_as_hex None sec_prefix;
    if truthy_str sec_hex then mret sec_hex
    else address None address_prefix.

(** [sign], lines 217-226. *)
Definition sign (h : bytes) : M bytes :=
  p ← is_private;
  if negb p then raise (RuntimeError not_private_msg)
  else
    val ← ext_partial (call_from_bytes_32 h) "from_bytes_32" (Imports.from_bytes_32 imp h);
    self ← get;
    match _generator self with
    | None => raise (AttributeError "'NoneType' object has no attribute 'sign'")
    | Some g =>
        s ← secret_exponent;
        match s with
        | None => raise (TypeError "secret exponent is None")
        | Some s =>
            rs ← ext (call_sign s val) (Generator.sign g s val);
            ext (call_sigencode_der (fst rs) (snd rs))
                (Imports.sigencode_der imp (fst rs) (snd rs))
        end
    end.

(** The [for candidate in possible_pubkeys] loop of [verify], lines
    243-252: [Some candidate] on [break], [None] when the loop runs out
    (the [else] clause).  [hash160 == b] is false when [hash160] is
    [None]. *)
Fixpoint find_pubkey (hash160 : option bytes) (possible_pubkeys : list pair_t)
  : M (option pair_t) :=
  match possible_pubkeys with
  | [] => mret None
  | candidate :: rest =>
      hc ← ext (call_public_pair_to_hash160_sec candidate true)
               (Imports.public_pair_to_hash160_sec imp candidate true);
      if bool_decide (hash160 = Some hc) then mret (Some candidate)
      else
        hu ← ext (call_public_pair_to_hash160_sec candidate false)
                 (Imports.public_pair_to_hash160_sec imp candidate false);
        if bool_decide (hash160 = Some hu) then mret (Some candidate)
        else find_pubkey hash160 rest
  end.

(** [verify], lines 228-253.  [self.public_pair()] is read twice in the
    source (lines 236 and 238) with nothing in between that writes it; it
    is read once here. *)
Definition verify (h sig : bytes) (generator : option Generator.t) : M bool :=
  self ← get;
  let generator := if truthy_obj generator then generator else _generator self in
  match generator with
  | None => raise (ValueError verify_generator_msg)
  | Some generator =>
      val ← ext_partial (call_from_bytes_32 h) "from_bytes_32" (Imports.from_bytes_32 imp h);
      pubkey ← public_pair;
      rs ← ext_partial (call_sigdecode_der sig) "sigdecode_der" (Imports.sigdecode_der imp sig);
      match pubkey with
      | None =>
          possible_pubkeys ←
            ext (call_possible_public_pairs_for_signature val rs)
                (Generator.possible_public_pairs_for_signature generator val rs);
          hash160 ← hash160 None;
          found ← find_pubkey hash160 possible_pubkeys;
          match found with
          | None => mret false
          | Some pubkey =>
              ext (call_verify pubkey val rs) (Generator.verify generator pubkey val rs)
          end
      | Some pubkey =>
          ext (call_verify pubkey val rs) (Generator.verify generator pubkey val rs)
      end
  end.

End methods.

(** [from_sec], lines 89-95. *)
Definition from_sec (imp : Imports.t) (class_ : class) (sec : bytes)
    (generator : Generator.t) : result t :=
  match Imports.sec_to_public_pair imp sec generator with
  | None => Raise (ImportedError "sec_to_public_pair")
  | Some public_pair =>
      __init__ class_ None None (Some public_pair) None None
               (Some (Imports.is_sec_compressed imp sec)) false
  end.

End Key.

(** ** Objects and references

    Keys live in a heap and are handled through references, so that
    "returns self" and "returns a new Key" are different outcomes, and a
    memoization made through one reference is seen through every alias.
    The log of a run on the heap tags each call with the receiver on whose
    behalf it was made. *)

Definition loc := nat.

Local Abbreviation heap := (gmap loc Key.t).
Local Abbreviation W := (M (loc * ext_call) heap).

(** Run a method on the object [self] refers to. *)
Definition on {A} (self : loc) (m : M ext_call Key.t A) : W A :=
  fun h =>
    match h !! self with
    | Some k =>
        let o := m k in
        Outcome (value o) (<[self := state o]> h) (map (pair self) (calls o))
    | None => Outcome (Raise ReferenceError) h []
    end.

(** Allocate the object a constructor call returns, if it returns. *)
Definition new (k : result Key.t) : W loc :=
  fun h =>
    match k with
    | Ok k => let l := fresh (dom h) in Outcome (Ok l) (<[l := k]> h) []
    | Raise e => Outcome (Raise e) h []
    end.

(** [str(r)] for an optional string. *)
Definition str (r : option string) : string :=
  match r with
  | Some s => s
  | None => "None"
  end.

Section references.

Variable imp : Imports.t.

(** [public_copy], lines 197-202. *)
Definition public_copy (self : loc) : W loc :=
  s ← on self Key.secret_exponent;
  if is_None s then mret self
  else
    public_pair ← on self Key.public_pair;
    k ← on self get;
    new (Key.__init__ (Key.__class__ k) None None public_pair None
           (Some (Key._prefer_uncompressed k))
           (Some (negb (is_None (Key._hash160_compressed k))))
           false).

(** [subkey] and [subkeys], lines 204-215. *)
Definition subkey (self : loc) (path_to_subkey : string) : W loc :=
  mret self.

Definition subkeys (self : loc) (path_to_subkeys : string) : W (list loc) :=
  mret [self].

(** [__repr__], lines 262-266. *)
Definition __repr__ (self : loc) : W string :=
  c ← public_copy self;
  r ← on c (Key.as_text imp None (Some "") None);
  p ← on self Key.is_private;
  if (p : bool) then mret ("private_for <" +:+ str r +:+ ">")
  else mret ("<" +:+ str r +:+ ">").

(** A method call on a Key, with its arguments. *)
Inductive invocation :=
| call_is_private
| call_secret_exponent
| call_wif (use_uncompressed : option bool) (wif_prefix : option bytes)
| call_public_pair
| call_sec (use_uncompressed : option bool)
| call_sec_as_hex (use_uncompressed : option bool) (sec_prefix : option string)
| call_hash160_method (use_uncompressed : option bool)
| call_address (use_uncompressed : option bool) (address_prefix : option bytes)
| call_as_text (address_prefix : option bytes) (sec_prefix : option string)
    (wif_prefix : option bytes)
| call_public_copy
| call_subkey (path : string)
| call_subkeys (path : string)
| call_sign_method (h : bytes)
| call_verify_method (h sig : bytes) (generator : option Generator.t)
| call_repr.

(** The effect of a call; the returned value is dropped. *)
Definition discard {A} (m : W A) : W unit := _ ← m; mret tt.

Definition invoke (self : loc) (c : invocation) : W unit :=
  match c with
  | call_is_private => discard (on self Key.is_private)
  | call_secret_exponent => discard (on self Key.secret_exponent)
  | call_wif u p => discard (on self (Key.wif imp u p))
  | call_public_pair => discard (on self Key.public_pair)
  | call_sec u => discard (on self (Key.sec imp u))
  | call_sec_as_hex u p => discard (on self (Key.sec_as_hex imp u p))
  | call_hash160_method u => discard (on self (Key.hash160 imp u))
  | call_address u p => discard (on self (Key.address imp u p))
  | call_as_text a s w => discard (on self (Key.as_text imp a s w))
  | call_public_copy => discard (public_copy self)
  | call_subkey path => discard (subkey self path)
  | call_subkeys path => discard (subkeys self path)
  | call_sign_method h => discard (on self (Key.sign imp h))
  | call_verify_method h sig g => discard (on self (Key.verify imp h sig g))
  | call_repr => discard (__repr__ self)
  end.

(** A program is a sequence of calls, each on some receiver; a raised
    exception is caught by the caller and the program goes on. *)
Definition step (w : heap * list (loc * ext_call)) (rc : loc * invocation)
  : heap * list (loc * ext_call) :=
  let o := invoke (fst rc) (snd rc) (fst w) in
  (state o, snd w ++ calls o).

Definition run (program : list (loc * invocation)) (h : heap)
  : heap * list (loc * ext_call) :=
  fold_left step program (h, []).

End references.

(** ** A small instance of the collaborators

    ECDSA over the additive group of integers modulo 11, with the group
    element itself as "x coordinate": enough to run the methods on
    concrete keys.  The nonce is fixed, signing is deterministic. *)

Module Toy.

Definition q : Z := 11.

Definition inv (a : Z) : Z := a ^ 9 mod q.

Definition point (x : Z) : pair_t :=
  let x := x mod q in
  if x =? 0 then (None, None) else (Some x, Some (x * x mod q)).

Definition contains (x y : Z) : bool :=
  (0 <? x) && (x <? q) && (y =? x * x mod q).

Definition sign (secret val : Z) : Z * Z :=
  let k := 3 in
  let r := k mod q in
  (r, inv k * (val + r * secret) mod q).

Definition in_range (a : Z) : bool := (0 <? a) && (a <? q).

Definition verify (p : pair_t) (val : Z) (rs : Z * Z) : bool :=
  match p with
  | (Some x, Some _) =>
      let (r, s) := rs in
      in_range r && in_range s
      && ((val * inv s + r * inv s * x) mod q =? r)
  | _ => false
  end.

Definition recover (val : Z) (rs : Z * Z) : list pair_t :=
  let (r, s) := rs in
  [point (inv r * (s * (q - r) - val)); point (inv r * (s * r - val))].

Definition generator : Generator.t :=
  {| Generator.order := q;
     Generator.mul := point;
     Generator.contains_point := contains;
     Generator.sign := sign;
     Generator.verify := verify;
     Generator.possible_public_pairs_for_signature := recover |}.

Definition byte_of_Z (x : Z) : byte :=
  match Byte.of_N (Z.to_N (x mod 256)) with
  | Some b => b
  | None => x00
  end.

Definition Z_of_byte (b : byte) : Z := Z.of_N (Byte.to_N b).

Definition from_bytes (b : bytes) : Z :=
  fold_left (fun acc x => acc * 256 + Z_of_byte x) b 0.

Definition from_bytes_32 (h : bytes) : option Z :=
  if (length h =? 32)%nat then Some (from_bytes h) else None.

Definition hash160 (b : bytes) : bytes :=
  [byte_of_Z (from_bytes b * 31 + 7); byte_of_Z (Z.of_nat (length b))].

Definition public_pair_to_sec (p : pair_t) (compressed : bool) : bytes :=
  match p with
  | (Some x, Some y) =>
      if compressed then [if Z.even y then x02 else x03; byte_of_Z x]
      else [x04; byte_of_Z x; byte_of_Z y]
  | _ => []
  end.

Definition sec_to_public_pair (sec : bytes) (g : Generator.t) : option pair_t :=
  match sec with
  | [_; x] => Some (point (Z_of_byte x))
  | [_; x; y] => Some (Some (Z_of_byte x), Some (Z_of_byte y))
  | _ => None
  end.

Definition sigdecode_der (sig : bytes) : option (Z * Z) :=
  match sig with
  | [r; s] => Some (Z_of_byte r, Z_of_byte s)
  | _ => None
  end.

Definition imports : Imports.t :=
  {| Imports.from_bytes_32 := from_bytes_32;
     Imports.hash160 := hash160;
     Imports.hash160_sec_to_bitcoin_address :=
       fun h prefix => String.string_of_list_byte (prefix ++ h);
     Imports.is_sec_compressed := fun sec => (length sec =? 2)%nat;
     Imports.public_pair_to_sec := public_pair_to_sec;
     Imports.public_pair_to_hash160_sec :=
       fun p compressed => hash160 (public_pair_to_sec p compressed);
     Imports.sec_to_public_pair := sec_to_public_pair;
     Imports.secret_exponent_to_wif :=
       fun s compressed prefix =>
         String.string_of_list_byte
           (prefix ++ byte_of_Z s :: (if compressed then [x01] else []));
     Imports.b2h := String.string_of_list_byte;
     Imports.sigencode_der := fun r s => [byte_of_Z r; byte_of_Z s];
     Imports.sigdecode_der := sigdecode_der |}.

(** A 32-byte message hash whose integer value is [n] (for [0 <= n < 256]). *)
Definition message (n : Z) : bytes := repeat x00 31 ++ [byte_of_Z n].

(** The private Key of secret exponent 4, as [Key.__init__] returns it. *)
Definition private_key : Key.t :=
  {| Key.__class__ := Key.Key;
     Key._prefer_uncompressed := false;
     Key._secret_exponent := Some 4;
     Key._generator := Some generator;
     Key._public_pair := Some (Some 4, Some 5);
     Key._hash160_uncompressed := None;
     Key._hash160_compressed := None |}.

(** The short hash of the compressed encoding of its public pair. *)
Definition short_hash : bytes := [x83; x02].

(** The Key that knows this short hash only, as the hash of a compressed
    encoding. *)
Definition hash_only_key : Key.t :=
  {| Key.__class__ := Key.Key;
     Key._prefer_uncompressed := false;
     Key._secret_exponent := None;
     Key._generator := Some generator;
     Key._public_pair := None;
     Key._hash160_uncompressed := None;
     Key._hash160_compressed := Some short_hash |}.

(** The signature of [message 5] by the private Key, DER-encoded. *)
Definition signature : bytes := [x03; x02].

(** The Key built from the same short hash with [is_compressed=True] and
    [prefer_uncompressed=True]. *)
Definition mismatched_key : Key.t :=
  {| Key.__class__ := Key.Key;
     Key._prefer_uncompressed := true;
     Key._secret_exponent := None;
     Key._generator := Some generator;
     Key._public_pair := None;
     Key._hash160_uncompressed := None;
     Key._hash160_compressed := Some short_hash |}.

End Toy.

(** * Vocabulary of the statements *)

(** The number of values supplied among the three key materials. *)
Definition supplied (secret_exponent : option Z) (public_pair : option pair_t)
    (hash160 : option bytes) : nat :=
  Nat.b2n (negb (is_None secret_exponent))
  + Nat.b2n (negb (is_None public_pair))
  + Nat.b2n (negb (is_None hash160)).

(** The scalar lies in [[1, order)]. *)
Definition in_order (g : Generator.t) (s : Z) : Prop :=
  1 <= s < Generator.order g.

(** The pair has both coordinates and passes [contains_point]. *)
Definition passes_membership (g : Generator.t) (p : pair_t) : Prop :=
  exists x y, p = (Some x, Some y) /\ Generator.contains_point g x y = true.

(** The memoization slot of a compression variant. *)
Definition slot (use_uncompressed : bool) (k : Key.t) : option bytes :=
  if use_uncompressed then Key._hash160_uncompressed k
  else Key._hash160_compressed k.

(** The variant an accessor answers for: the override if given, else the
    preference of the instance. *)
Definition variant (use_uncompressed : option bool) (k : Key.t) : bool :=
  match use_uncompressed with
  | Some b => b
  | None => Key._prefer_uncompressed k
  end.

(** Everything in a Key but its two memoization slots. *)
Definition same_attributes (k k' : Key.t) : Prop :=
  Key.__class__ k = Key.__class__ k'
  /\ Key._prefer_uncompressed k = Key._prefer_uncompressed k'
  /\ Key._secret_exponent k = Key._secret_exponent k'
  /\ Key._generator k = Key._generator k'
  /\ Key._public_pair k = Key._public_pair k'.

(** A Key as some call of the constructor returned it, whatever its
    memoization slots have become since. *)
Definition constructed (k : Key.t) : Prop :=
  exists class_ se g pp h pu ic ps k0,
    Key.__init__ class_ se g pp h pu ic ps = Ok k0 /\ same_attributes k0 k.

(** The number of memoization slots still unset. *)
Definition unset (k : Key.t) : nat :=
  Nat.b2n (is_None (Key._hash160_uncompressed k))
  + Nat.b2n (is_None (Key._hash160_compressed k)).

Definition is_hash160_call (c : ext_call) : bool :=
  match c with
  | call_hash160 _ => true
  | _ => false
  end.

Definition is_sec_call (c : ext_call) : bool :=
  match c with
  | call_public_pair_to_sec _ _ => true
  | _ => false
  end.

Definition is_verify_call (c : ext_call) : bool :=
  match c with
  | call_verify _ _ _ => true
  | _ => false
  end.

Definition is_recovery_call (c : ext_call) : bool :=
  match c with
  | call_possible_public_pairs_for_signature _ _ => true
  | _ => false
  end.

(** The calls of one kind made on behalf of the object at [l]. *)
Definition calls_of (kind : ext_call -> bool) (l : loc)
    (log : list (loc * ext_call)) : list ext_call :=
  map snd (List.filter (fun e => (fst e =? l)%nat && kind (snd e)) log).

(** The generator [verify] works with: the override, else the Key's own. *)
Definition resolved_generator (generator : option Generator.t) (k : Key.t)
  : option Generator.t :=
  match generator with
  | Some g => Some g
  | None => Key._generator k
  end.

(** The stored short hash of a Key without a public pair, in the words of
    the specification: the content of whichever slot is populated. *)
Definition spec_stored_short_hash (k : Key.t) : option bytes :=
  match Key._hash160_compressed k with
  | Some h => Some h
  | None => Key._hash160_uncompressed k
  end.

(** Verification by recovery, in the words of the specification: a
    candidate matches when its short hash under the compressed or the
    uncompressed encoding equals the stored short hash; the first matching
    candidate is verified against, and no match means [false]. *)
Definition matches_identity (imp : Imports.t) (stored : option bytes)
    (candidate : pair_t) : bool :=
  bool_decide (stored = Some (Imports.public_pair_to_hash160_sec imp candidate true))
  || bool_decide (stored = Some (Imports.public_pair_to_hash160_sec imp candidate false)).

Definition first_match (imp : Imports.t) (stored : option bytes)
    (candidates : list pair_t) : option pair_t :=
  List.find (matches_identity imp stored) candidates.

Definition verify_by_recovery (imp : Imports.t) (g : Generator.t)
    (stored : option bytes) (val : Z) (rs : Z * Z) : bool :=
  match first_match imp stored
          (Generator.possible_public_pairs_for_signature g val rs) with
  | Some candidate => Generator.verify g candidate val rs
  | None => false
  end.

(** The state of a Key after [hash160] has filled the slot of a variant. *)
Definition fill (use_uncompressed : bool) (k : Key.t) (h : bytes) : Key.t :=
  if use_uncompressed then Key.set_hash160_uncompressed k (Some h)
  else Key.set_hash160_compressed k (Some h).

Definition is_comparison_call (c : ext_call) : bool :=
  match c with
  | call_public_pair_to_hash160_sec _ _ => true
  | _ => false
  end.

(** A Key evolves by filling memoization slots only: its other attributes
    stay, and a filled slot keeps its value. *)
Definition evolves (k k' : Key.t) : Prop :=
  same_attributes k k'
  /\ forall u v, slot u k = Some v -> slot u k' = Some v.

(** The number of hash computations in a log. *)
Definition hash_count (log : list ext_call) : nat :=
  length (List.filter is_hash160_call log).

(** A method respects the life cycle of its receiver: it changes nothing
    but empty slots, and fills one slot per hash it computes. *)
Definition respects {A} (m : M ext_call Key.t A) : Prop :=
  forall k,
    evolves k (state (m k))
    /\ (hash_count (calls (m k)) + unset (state (m k)) = unset k)%nat.

(** The same on the heap, for the object at [l], whatever the receiver of
    the call. *)
Definition heap_respects (l : loc) {A}
    (m : M (loc * ext_call) (gmap loc Key.t) A) : Prop :=
  forall (h : gmap loc Key.t) k,
    h !! l = Some k ->
    exists k',
      state (m h) !! l = Some k'
      /\ evolves k k'
      /\ (length (calls_of is_hash160_call l (calls (m h))) + unset k' = unset k)%nat.

(** The Key [public_copy] constructs from a private Key. *)
Definition stripped (k : Key.t) : Key.t :=
  {| Key.__class__ := Key.__class__ k;
     Key._prefer_uncompressed := Key._prefer_uncompressed k;
     Key._secret_exponent := None;
     Key._generator := None;
     Key._public_pair := Key._public_pair k;
     Key._hash160_uncompressed := None;
     Key._hash160_compressed := None |}.

(** Which of the two slots are filled: (uncompressed, compressed). *)
Definition populated (k : Key.t) : bool * bool :=
  (negb (is_None (Key._hash160_uncompressed k)),
   negb (is_None (Key._hash160_compressed k))).

(** * Vocabulary of the further properties *)

Definition is_wif_call (c : ext_call) : bool :=
  match c with
  | call_secret_exponent_to_wif _ _ _ => true
  | _ => false
  end.

Definition is_sign_call (c : ext_call) : bool :=
  match c with
  | call_sign _ _ => true
  | _ => false
  end.

(** The calls that are handed the secret exponent. *)
Definition handles_secret (c : ext_call) : bool :=
  is_wif_call c || is_sign_call c.

(** No call that is handed the secret exponent. *)
Definition secret_free (c : ext_call) : bool := negb (handles_secret c).

(** The memoization slots of a Key with a public pair hold nothing but the
    short hash of the encoding of that pair, for the variant of the slot. *)
Definition coherent (imp : Imports.t) (k : Key.t) : Prop :=
  forall p u v,
    Key._public_pair k = Some p ->
    slot u k = Some v ->
    v = Imports.hash160 imp (Imports.public_pair_to_sec imp p (negb u)).

(** A method keeps a property of its receiver. *)
Definition preserves (I : Key.t -> Prop) {A} (m : M ext_call Key.t A) : Prop :=
  forall k, I k -> I (state (m k)).

(** A property of every object of the heap, and a call that keeps it. *)
Definition heap_all (I : Key.t -> Prop) (h : gmap loc Key.t) : Prop :=
  forall l k, h !! l = Some k -> I k.

Definition heap_preserves (I : Key.t -> Prop) {A}
    (m : M (loc * ext_call) (gmap loc Key.t) A) : Prop :=
  forall h, heap_all I h -> heap_all I (state (m h)).

(** A class with its three prefixes set, as [make_subclass] returns it. *)
Definition configured (c : Key.class) : Prop :=
  Key.wif_prefix c <> None /\ Key.sec_prefix c <> None
  /\ Key.address_prefix c <> None.

(** * Properties of construction *)

Section construction.

Variable class_ : Key.class.
Variables prefer_uncompressed is_compressed : option bool.
Variable is_pay_to_script : bool.

Local Abbreviation init se g pp h :=
  (Key.__init__ class_ se g pp h prefer_uncompressed is_compressed is_pay_to_script).

(** The arity check is the first one: whatever else is wrong, a number of
    supplied values other than one gives the arity error. *)
Lemma init_arity se g pp h :
  supplied se pp h <> 1%nat -> init se g pp h = Raise (ValueError arity_msg).
Proof.
  unfold Key.__init__, supplied.
  destruct se, pp, h; cbn; intros H; try reflexivity; lia.
Qed.

(** With a secret exponent alone, construction is decided by the
    generator check, the range check and the membership test, in this
    order. *)
Lemma init_secret_alone s g :
  init (Some s) g None None =
  if negb (s =? 0) && negb (truthy_obj g) then Raise (ValueError no_generator_msg)
  else if s <? 1 then Raise InvalidSecretExponentError
  else match g with
       | None => Raise (AttributeError "'NoneType' object has no attribute 'order'")
       | Some g' =>
           if s >=? Generator.order g' then Raise InvalidSecretExponentError
           else match Generator.mul g' s with
                | (Some x, Some y) =>
                    if Generator.contains_point g' x y
                    then Ok {| Key.__class__ := class_;
                               Key._prefer_uncompressed :=
                                 match prefer_uncompressed with
                                 | Some b => b
                                 | None =>
                                     negb (match is_compressed with
                                           | Some b => b
                                           | None => true
                                           end)
                                 end;
                               Key._secret_exponent := Some s;
                               Key._generator := Some g';
                               Key._public_pair := Some (Generator.mul g' s);
                               Key._hash160_uncompressed := None;
                               Key._hash160_compressed := None |}
                    else Raise InvalidPublicPairError
                | _ => Raise InvalidPublicPairError
                end
       end.
Proof.
  unfold Key.__init__; cbn.
  destruct (negb (s =? 0) && negb (truthy_obj g)); [reflexivity|].
  destruct (s <? 1); [reflexivity|].
  destruct g as [g'|]; [|reflexivity]. cbn.
  destruct (s >=? Generator.order g'); [reflexivity|]. cbn.
  destruct (Generator.mul g' s) as [[x|] [y|]]; cbn; try reflexivity.
  destruct (Generator.contains_point g' x y); cbn;
    destruct is_compressed as [[]|]; reflexivity.
Qed.

(** With a public pair alone the secret exponent stays [None]; with a
    hash160 alone so does the public pair. *)
Lemma init_public_alone p g k :
  init None g (Some p) None = Ok k ->
  Key._secret_exponent k = None /\ Key._public_pair k = Some p
  /\ None_in p = false.
Proof.
  unfold Key.__init__; cbn.
  destruct (None_in p) eqn:Hp; cbn; [discriminate|].
  destruct g as [g'|], p as [[x|] [y|]]; cbn;
    try destruct (Generator.contains_point g' x y); cbn;
    intros [= <-]; auto.
Qed.

Lemma init_hash_alone h160 g :
  init None g None (Some h160) =
  let c := match is_compressed with
           | Some b => b
           | None => negb (truthy_bytes (Some h160))
           end in
  Ok {| Key.__class__ := class_;
        Key._prefer_uncompressed :=
          match prefer_uncompressed with
          | Some b => b
          | None => negb c
          end;
        Key._secret_exponent := None;
        Key._generator := g;
        Key._public_pair := None;
        Key._hash160_uncompressed :=
          if truthy_bytes (Some h160) && negb c then Some h160 else None;
        Key._hash160_compressed :=
          if truthy_bytes (Some h160) && c then Some h160 else None |}.
Proof.
  unfold Key.__init__; cbn.
  destruct h160 as [|b h160]; cbn;
    destruct is_compressed as [[]|]; cbn; reflexivity.
Qed.

(** A construction that passes the arity check ends in something else
    than the arity error. *)
Lemma init_not_arity se g pp h :
  supplied se pp h = 1%nat -> init se g pp h <> Raise (ValueError arity_msg).
Proof.
  unfold supplied. intros H1.
  destruct se as [s|], pp as [p|], h as [h160|]; cbn in H1; try lia; clear H1.
  - rewrite init_secret_alone.
    repeat case_match; discriminate.
  - unfold Key.__init__; cbn. repeat case_match; discriminate.
  - rewrite init_hash_alone. discriminate.
Qed.

(** Where an invalid-secret-exponent error can come from. *)
Lemma init_invalid_secret se g pp h :
  init se g pp h = Raise InvalidSecretExponentError ->
  exists s, se = Some s /\ supplied se pp h = 1%nat
    /\ (s < 1 \/ exists g', g = Some g' /\ Generator.order g' <= s).
Proof.
  destruct (decide (supplied se pp h = 1%nat)) as [H1|H1];
    [|rewrite init_arity by done; discriminate].
  unfold supplied in H1.
  destruct se as [s|], pp as [p|], h as [h160|]; cbn in H1; try lia.
  - rewrite init_secret_alone. intros H. exists s. split; [done|]. split; [done|].
    destruct (negb (s =? 0) && negb (truthy_obj g)); [discriminate|].
    destruct (s <? 1) eqn:Hs; [left; lia|].
    destruct g as [g'|]; [|discriminate].
    destruct (s >=? Generator.order g') eqn:Ho; [right; exists g'; split; [done|lia]|].
    repeat case_match; discriminate.
  - unfold Key.__init__; cbn. repeat case_match; discriminate.
  - rewrite init_hash_alone. discriminate.
Qed.

End construction.

(** C5.  Construction raises the arity error exactly when the number of
    values supplied among secret_exponent, public_pair and hash160 is not
    one: none, two or three supplied fail with it, exactly one never does. *)
Theorem C5_arity_error_iff_not_exactly_one :
  forall class_ se g pp h pu ic ps,
    Key.__init__ class_ se g pp h pu ic ps = Raise (ValueError arity_msg)
    <-> supplied se pp h <> 1%nat.
Proof.
  intros class_ se g pp h pu ic ps. split.
  - intros H Hone. by apply (init_not_arity class_ pu ic ps se g pp h Hone).
  - apply init_arity.
Qed.

(** C6, as stated, fails on two inputs: secret exponent 0 without a
    generator passes the truthiness test of line 61 and is rejected by the
    range check instead; and a secret exponent supplied together with a
    public pair is rejected by the arity check, which comes first. *)
Lemma C6_zero_or_second_value_counterexample :
  Key.__init__ Key.Key (Some 0) None None None None None false
    = Raise InvalidSecretExponentError
  /\ Key.__init__ Key.Key (Some 0) None None None None None false
    <> Raise (ValueError no_generator_msg)
  /\ Key.__init__ Key.Key (Some 5) None (Some (Some 1, Some 2)) None None None false
    = Raise (ValueError arity_msg)
  /\ Key.__init__ Key.Key (Some 5) None (Some (Some 1, Some 2)) None None None false
    <> Raise (ValueError no_generator_msg).
Proof. repeat split; try reflexivity; discriminate. Qed.

(** C6, amended.  Whenever a nonzero secret exponent is the only key
    material supplied and no generator is given, construction fails with
    the missing-generator error. *)
Theorem C6_missing_generator_error :
  forall class_ s pu ic ps,
    s <> 0 ->
    Key.__init__ class_ (Some s) None None None pu ic ps
    = Raise (ValueError no_generator_msg).
Proof.
  intros class_ s pu ic ps Hs. rewrite init_secret_alone.
  destruct (s =? 0) eqn:E; [lia|reflexivity].
Qed.

Lemma C6_missing_generator_error_witness :
  (-3) <> 0
  /\ Key.__init__ Key.Key (Some (-3)) None None None None None false
     = Raise (ValueError no_generator_msg).
Proof.
  split; [lia|].
  apply (C6_missing_generator_error Key.Key (-3) None None false); lia.
Defined.

(** C4, as stated, fails where an earlier check fires: a secret exponent
    outside the range, supplied with a generator and together with a
    public pair, gets the arity error; supplied alone without a generator
    it gets the missing-generator error. *)
Lemma C4_earlier_check_counterexample :
  ~ in_order Toy.generator 0
  /\ Key.__init__ Key.Key (Some 0) (Some Toy.generator) (Some (Some 1, Some 1))
       None None None false
     = Raise (ValueError arity_msg)
  /\ Key.__init__ Key.Key (Some 0) (Some Toy.generator) (Some (Some 1, Some 1))
       None None None false
     <> Raise InvalidSecretExponentError
  /\ Key.__init__ Key.Key (Some (-1)) None None None None None false
     = Raise (ValueError no_generator_msg).
Proof.
  repeat split; try reflexivity; try discriminate.
  unfold in_order. lia.
Qed.

(** C4, amended.  The invalid-secret-exponent error is raised only for a
    supplied secret exponent that is the only key material and lies
    outside [[1, order)]; when the secret exponent is the only key material
    and a generator is given, it is raised if and only if the exponent lies
    outside the range; and a supplied exponent inside the range never
    raises it, whatever else is supplied. *)
Theorem C4_invalid_secret_exponent_iff_out_of_range :
  (forall class_ se g pp h pu ic ps,
      Key.__init__ class_ se g pp h pu ic ps = Raise InvalidSecretExponentError ->
      exists s, se = Some s /\ supplied se pp h = 1%nat
        /\ (s < 1 \/ exists g', g = Some g' /\ Generator.order g' <= s))
  /\ (forall class_ s g pu ic ps,
      Key.__init__ class_ (Some s) (Some g) None None pu ic ps
        = Raise InvalidSecretExponentError
      <-> ~ in_order g s)
  /\ (forall class_ s g pp h pu ic ps,
      in_order g s ->
      Key.__init__ class_ (Some s) (Some g) pp h pu ic ps
        <> Raise InvalidSecretExponentError).
Proof.
  split; [|split].
  - intros. by eapply init_invalid_secret.
  - intros class_ s g pu ic ps. unfold in_order. split.
    + intros H. apply init_invalid_secret in H as (s' & [= <-] & _ & [Hlo | (g' & [= <-] & Hhi)]); lia.
    + intros H. rewrite init_secret_alone. cbn.
      rewrite andb_false_r.
      destruct (s <? 1) eqn:Hlo; [reflexivity|].
      destruct (s >=? Generator.order g) eqn:Hhi; [reflexivity|]. lia.
  - intros class_ s g pp h pu ic ps [Hlo Hhi] H.
    apply init_invalid_secret in H as (s' & [= <-] & _ & [Hlt | (g' & [= <-] & Hge)]); lia.
Qed.

Lemma C4_invalid_secret_exponent_iff_out_of_range_witness :
  in_order Toy.generator 4
  /\ Key.__init__ Key.Key (Some 4) (Some Toy.generator) None None None None false
     <> Raise InvalidSecretExponentError.
Proof.
  assert (H : in_order Toy.generator 4)
    by (unfold in_order; simpl; unfold Toy.q; lia).
  split; [exact H|].
  exact (proj2 (proj2 C4_invalid_secret_exponent_iff_out_of_range)
           Key.Key 4 Toy.generator None None None None false H).
Defined.

(** C3.  For every scalar [s] in [[1, order)], the Key constructed from
    [s] and the generator, when it is returned, has [s * generator] as its
    public pair and this pair passes the curve-membership test; and the
    construction does return a Key whenever the generator's multiple is a
    point of the curve, as it is for a generator of a curve group. *)
Theorem C3_public_pair_of_secret_exponent :
  forall class_ g s pu ic ps,
    in_order g s ->
    (passes_membership g (Generator.mul g s) ->
     exists k, Key.__init__ class_ (Some s) (Some g) None None pu ic ps = Ok k
       /\ value (Key.public_pair k) = Ok (Some (Generator.mul g s))
       /\ Key._secret_exponent k = Some s)
    /\ (forall k,
        Key.__init__ class_ (Some s) (Some g) None None pu ic ps = Ok k ->
        value (Key.public_pair k) = Ok (Some (Generator.mul g s))
        /\ passes_membership g (Generator.mul g s)).
Proof.
  intros class_ g s pu ic ps [Hlo Hhi].
  rewrite init_secret_alone. cbn. rewrite andb_false_r.
  destruct (s <? 1) eqn:E1; [lia|].
  destruct (s >=? Generator.order g) eqn:E2; [lia|].
  split.
  - intros (x & y & -> & ->). eexists. split; [reflexivity|]. by cbn.
  - intros k. destruct (Generator.mul g s) as [[x|] [y|]] eqn:Hm; try discriminate.
    destruct (Generator.contains_point g x y) eqn:Hc; [|discriminate].
    intros [= <-]. cbn. split; [reflexivity|]. by exists x, y.
Qed.

Lemma C3_public_pair_of_secret_exponent_witness :
  exists k,
    Key.__init__ Key.Key (Some 4) (Some Toy.generator) None None None None false = Ok k
    /\ value (Key.public_pair k) = Ok (Some (Some 4, Some 5))
    /\ Key._secret_exponent k = Some 4.
Proof.
  assert (Hs : in_order Toy.generator 4) by (unfold in_order; simpl; unfold Toy.q; lia).
  assert (Hm : passes_membership Toy.generator (Generator.mul Toy.generator 4))
    by (exists 4, 5; split; reflexivity).
  exact (proj1 (C3_public_pair_of_secret_exponent Key.Key Toy.generator 4
                  None None false Hs) Hm).
Defined.

(** * Reasoning about methods *)

Section monad_laws.

Context {E S : Type}.

Lemma bind_pure {A B} (m : M E S A) (f : A -> M E S B) s a :
  m s = Outcome (Ok a) s [] -> (m ≫= f) s = f a s.
Proof.
  intros H. unfold mbind, M_bind. rewrite H. by destruct (f a s).
Qed.

Lemma bind_step {A B} (m : M E S A) (f : A -> M E S B) s a s' l :
  m s = Outcome (Ok a) s' l ->
  (m ≫= f) s = Outcome (value (f a s')) (state (f a s')) (l ++ calls (f a s')).
Proof.
  intros H. unfold mbind, M_bind. rewrite H. by destruct (f a s').
Qed.

End monad_laws.

Lemma use_uncompressed_spec u k :
  Key._use_uncompressed u k = Outcome (Ok (variant u k)) k [].
Proof. destruct u as [[]|]; reflexivity. Qed.

Lemma public_pair_spec k :
  Key.public_pair k = Outcome (Ok (Key._public_pair k)) k [].
Proof. reflexivity. Qed.

Lemma secret_exponent_spec k :
  Key.secret_exponent k = Outcome (Ok (Key._secret_exponent k)) k [].
Proof. reflexivity. Qed.

Lemma is_private_spec k :
  Key.is_private k = Outcome (Ok (negb (is_None (Key._secret_exponent k)))) k [].
Proof. reflexivity. Qed.

Create HintDb mspec.
#[local] Hint Resolve use_uncompressed_spec public_pair_spec
  secret_exponent_spec is_private_spec : mspec.
#[local] Hint Extern 0 (get _ = _) => reflexivity : mspec.
#[local] Hint Extern 0 (mret _ _ = _) => reflexivity : mspec.

(** Step over a bind whose first action neither logs nor writes. *)
Ltac mpure :=
  match goal with
  | |- context [(?m ≫= ?f) ?s] =>
      erewrite (bind_pure m f s) by (eauto with mspec); cbn beta
  end.

(** Step over a bind whose first action is a call to a collaborator. *)
Ltac mext :=
  match goal with
  | |- context [(?m ≫= ?f) ?s] =>
      erewrite (bind_step m f s) by reflexivity; cbn beta
  end.

Section methods_facts.

Variable imp : Imports.t.

(** [sec] encodes the public pair anew at every call. *)
Lemma sec_spec u k p :
  Key._public_pair k = Some p ->
  Key.sec imp u k
  = Outcome (Ok (Some (Imports.public_pair_to_sec imp p (negb (variant u k))))) k
      [call_public_pair_to_sec p (negb (variant u k))].
Proof.
  intros H. unfold Key.sec. mpure. rewrite H. mpure. reflexivity.
Qed.

(** A Key without a public pair answers [hash160] from its slots. *)
Lemma hash160_hash_only u k :
  Key._public_pair k = None ->
  Key.hash160 imp u k = Outcome (Ok (slot (variant u k) k)) k [].
Proof.
  intros H. unfold Key.hash160. repeat mpure. rewrite H. cbn [is_None]. mpure.
  destruct (variant u k); reflexivity.
Qed.

(** A filled slot is returned as it is. *)
Lemma hash160_cached u k v :
  slot (variant u k) k = Some v ->
  Key.hash160 imp u k = Outcome (Ok (Some v)) k [].
Proof.
  intros H. destruct (Key._public_pair k) as [p|] eqn:Hp.
  - unfold Key.hash160. repeat mpure. rewrite Hp. cbn [is_None].
    unfold slot in H.
    destruct (variant u k); mpure; rewrite H; cbn [is_None]; repeat mpure;
      by rewrite H.
  - rewrite hash160_hash_only by done. by rewrite H.
Qed.

(** With a public pair and an empty slot, [hash160] encodes the pair,
    hashes the encoding and stores the hash in the slot. *)
Lemma hash160_first u k p :
  Key._public_pair k = Some p ->
  slot (variant u k) k = None ->
  let b := Imports.public_pair_to_sec imp p (negb (variant u k)) in
  let h := Imports.hash160 imp b in
  Key.hash160 imp u k
  = Outcome (Ok (Some h)) (fill (variant u k) k h)
      [call_public_pair_to_sec p (negb (variant u k)); call_hash160 b].
Proof.
  intros Hp H. unfold Key.hash160. repeat mpure. rewrite Hp. cbn [is_None].
  unfold slot in H. unfold fill.
  destruct (variant u k) eqn:Hv; mpure; rewrite H; cbn [is_None];
    erewrite bind_step by
      (erewrite bind_step by (apply sec_spec; exact Hp); cbn;
       reflexivity);
    cbn; reflexivity.
Qed.

End methods_facts.

Section verification_facts.

Variable imp : Imports.t.

(** The loop of [verify] returns the first candidate whose compressed or
    uncompressed short hash equals the stored one; it leaves the Key alone
    and calls nothing but the short-hash function. *)
Lemma find_pubkey_spec stored candidates k :
  exists log,
    Key.find_pubkey imp stored candidates k
    = Outcome (Ok (first_match imp stored candidates)) k log
    /\ Forall (fun c => is_comparison_call c = true) log.
Proof.
  induction candidates as [|c rest IH].
  - exists []. split; [reflexivity|constructor].
  - destruct IH as (log & IH & Hlog).
    cbn [Key.find_pubkey]. unfold first_match in *. cbn [List.find].
    unfold matches_identity at 1.
    mext. cbn.
    destruct (bool_decide (stored = Some (Imports.public_pair_to_hash160_sec imp c true))).
    + eexists. split; [reflexivity|]. repeat constructor.
    + cbn. mext. cbn.
      destruct (bool_decide (stored = Some (Imports.public_pair_to_hash160_sec imp c false))).
      * eexists. split; [reflexivity|]. repeat constructor.
      * rewrite IH. cbn. eexists. split; [reflexivity|]. repeat constructor. done.
Qed.

Lemma resolved_generator_eq generator k :
  (if truthy_obj generator then generator else Key._generator k)
  = resolved_generator generator k.
Proof. by destruct generator. Qed.

(** [verify] on a Key that holds no public pair: recovery, then the match
    on short hashes, then the verify primitive on the first match only. *)
Lemma verify_hash_only k h sig generator g val rs :
  Key._public_pair k = None ->
  resolved_generator generator k = Some g ->
  Imports.from_bytes_32 imp h = Some val ->
  Imports.sigdecode_der imp sig = Some rs ->
  let stored := slot (Key._prefer_uncompressed k) k in
  let candidates := Generator.possible_public_pairs_for_signature g val rs in
  exists comparisons,
    Forall (fun c => is_comparison_call c = true) comparisons
    /\ Key.verify imp h sig generator k
       = Outcome (Ok (verify_by_recovery imp g stored val rs)) k
           ([call_from_bytes_32 h; call_sigdecode_der sig;
             call_possible_public_pairs_for_signature val rs]
            ++ comparisons
            ++ match first_match imp stored candidates with
               | Some candidate => [call_verify candidate val rs]
               | None => []
               end).
Proof.
  intros Hp Hg Hh Hsig stored candidates.
  destruct (find_pubkey_spec stored candidates k) as (log & Hfind & Hlog).
  exists log. split; [exact Hlog|].
  unfold Key.verify. mpure. rewrite resolved_generator_eq, Hg, Hh.
  mext. mpure. rewrite Hsig. mext. rewrite Hp. mext.
  erewrite bind_pure by (apply hash160_hash_only; exact Hp).
  cbn [variant]. fold stored. fold candidates.
  erewrite bind_step by exact Hfind.
  unfold verify_by_recovery. fold candidates.
  destruct (first_match imp stored candidates) as [c|]; cbn;
    rewrite ?app_nil_r; reflexivity.
Qed.

(** [verify] on a Key that holds its public pair: the verify primitive on
    that pair, and no recovery. *)
Lemma verify_with_public_pair k h sig generator g val rs p :
  Key._public_pair k = Some p ->
  resolved_generator generator k = Some g ->
  Imports.from_bytes_32 imp h = Some val ->
  Imports.sigdecode_der imp sig = Some rs ->
  Key.verify imp h sig generator k
  = Outcome (Ok (Generator.verify g p val rs)) k
      [call_from_bytes_32 h; call_sigdecode_der sig; call_verify p val rs].
Proof.
  intros Hp Hg Hh Hsig.
  unfold Key.verify. mpure. rewrite resolved_generator_eq, Hg, Hh.
  mext. mpure. rewrite Hsig. mext. rewrite Hp. reflexivity.
Qed.

(** [sign] on a private Key. *)
Lemma sign_private k h s g val :
  Key._secret_exponent k = Some s ->
  Key._generator k = Some g ->
  Imports.from_bytes_32 imp h = Some val ->
  let rs := Generator.sign g s val in
  Key.sign imp h k
  = Outcome (Ok (Imports.sigencode_der imp (fst rs) (snd rs))) k
      [call_from_bytes_32 h; call_sign s val;
       call_sigencode_der (fst rs) (snd rs)].
Proof.
  intros Hs Hg Hh rs.
  unfold Key.sign. mpure. rewrite Hs. cbn [is_None negb]. rewrite Hh.
  mext. mpure. rewrite Hg. mpure. rewrite Hs. mext. reflexivity.
Qed.

End verification_facts.

Lemma filter_comparisons (kind : ext_call -> bool) log :
  (forall c, is_comparison_call c = true -> kind c = false) ->
  Forall (fun c => is_comparison_call c = true) log ->
  List.filter kind log = [].
Proof.
  intros Hkind. induction 1 as [|c log Hc _ IH]; [reflexivity|].
  cbn. by rewrite (Hkind c Hc).
Qed.

Lemma first_match_None imp candidates :
  first_match imp None candidates = None.
Proof.
  unfold first_match. induction candidates as [|c rest IH]; [reflexivity|].
  cbn. exact IH.
Qed.

(** C7.  A Key without a public pair answers [hash160] with the slot of
    the requested variant, writes nothing and calls no collaborator; built
    from a hash160 with compression flag [c], it answers the stored hash
    for that variant and [None] for the other one. *)
Theorem C7_hash_only_returns_stored_slot :
  forall imp,
    (forall k u,
        Key._public_pair k = None ->
        Key.hash160 imp u k = Outcome (Ok (slot (variant u k) k)) k [])
    /\ (forall class_ g h160 pu ic ps,
        let c := match ic with
                 | Some b => b
                 | None => negb (truthy_bytes (Some h160))
                 end in
        exists k,
          Key.__init__ class_ None g None (Some h160) pu ic ps = Ok k
          /\ Key._public_pair k = None
          /\ Key._secret_exponent k = None
          /\ Key.hash160 imp (Some (negb c)) k
             = Outcome (Ok (if truthy_bytes (Some h160) then Some h160 else None)) k []
          /\ Key.hash160 imp (Some c) k = Outcome (Ok None) k []).
Proof.
  intros imp. split.
  - intros k u H. by apply hash160_hash_only.
  - intros class_ g h160 pu ic ps c.
    rewrite init_hash_alone. fold c. cbv zeta.
    eexists. split; [reflexivity|]. split; [reflexivity|]. split; [reflexivity|].
    rewrite !hash160_hash_only by reflexivity.
    unfold slot, variant. subst c.
    destruct ic as [[]|], h160 as [|b0 h160]; cbn; split; reflexivity.
Qed.

Lemma C7_hash_only_returns_stored_slot_witness :
  let k := {| Key.__class__ := Key.Key;
              Key._prefer_uncompressed := false;
              Key._secret_exponent := None;
              Key._generator := None;
              Key._public_pair := None;
              Key._hash160_uncompressed := None;
              Key._hash160_compressed := Some [x2a; x02] |} in
  Key.hash160 Toy.imports (Some true) k = Outcome (Ok None) k []
  /\ Key.hash160 Toy.imports None k = Outcome (Ok (Some [x2a; x02])) k [].
Proof.
  intros k. split.
  - apply (proj1 (C7_hash_only_returns_stored_slot Toy.imports) k (Some true)).
    reflexivity.
  - apply (proj1 (C7_hash_only_returns_stored_slot Toy.imports) k None).
    reflexivity.
Defined.

(** C1, as stated, fails for a Key whose short hash is stored in the slot
    its preference does not select: the candidates are compared with the
    value of [hash160()], which is [None] there, not with the stored short
    hash.  A signature by the right scalar has a candidate whose compressed
    short hash is the stored one, and the verify primitive accepts it; yet
    [verify] returns [false] and does not call the primitive. *)
Lemma C1_stored_hash_not_consulted_counterexample :
  let k := Toy.mismatched_key in
  let o := Key.verify Toy.imports (Toy.message 5) Toy.signature None k in
  Key.__init__ Key.Key None (Some Toy.generator) None (Some Toy.short_hash)
    (Some true) (Some true) false = Ok k
  /\ spec_stored_short_hash k = Some Toy.short_hash
  /\ first_match Toy.imports (spec_stored_short_hash k)
       (Generator.possible_public_pairs_for_signature Toy.generator 5 (3, 2))
     = Some (Some 4, Some 5)
  /\ verify_by_recovery Toy.imports Toy.generator (spec_stored_short_hash k) 5 (3, 2) = true
  /\ value o = Ok false
  /\ List.filter is_verify_call (calls o) = [].
Proof.
  intros k o. split; [reflexivity|].
  repeat split; vm_compute; reflexivity.
Qed.

(** C1, amended.  On a Key that holds no public pair, with a generator
    resolved, a message hash read and a signature DER-decoded into [rs],
    [verify] obtains the candidates from the generator's recovery, compares
    the compressed and the uncompressed short hash of each with the value
    [hash160()] returns (the slot of the Key's preferred variant), and
    answers with the verify primitive on the first matching candidate;
    without a match it answers [false] and the verify primitive is not
    called. *)
Theorem C1_verify_recovers_and_matches :
  forall imp k h sig generator g val rs,
    Key._public_pair k = None ->
    resolved_generator generator k = Some g ->
    Imports.from_bytes_32 imp h = Some val ->
    Imports.sigdecode_der imp sig = Some rs ->
    let candidates := Generator.possible_public_pairs_for_signature g val rs in
    let o := Key.verify imp h sig generator k in
    exists stored,
      value (Key.hash160 imp None k) = Ok stored
      /\ state o = k
      /\ List.filter is_recovery_call (calls o)
         = [call_possible_public_pairs_for_signature val rs]
      /\ match List.find (matches_identity imp stored) candidates with
         | Some candidate =>
             value o = Ok (Generator.verify g candidate val rs)
             /\ List.filter is_verify_call (calls o) = [call_verify candidate val rs]
         | None =>
             value o = Ok false
             /\ List.filter is_verify_call (calls o) = []
         end.
Proof.
  intros imp k h sig generator g val rs Hp Hg Hh Hsig candidates o.
  exists (slot (Key._prefer_uncompressed k) k).
  split; [by rewrite hash160_hash_only|].
  destruct (verify_hash_only imp k h sig generator g val rs Hp Hg Hh Hsig)
    as (cmp & Hcmp & Hv).
  subst o. rewrite Hv. cbn [value state calls].
  split; [reflexivity|].
  unfold verify_by_recovery, first_match. fold candidates.
  cbn [List.filter app is_recovery_call is_verify_call].
  rewrite !List.filter_app.
  rewrite !(filter_comparisons _ cmp) by (try exact Hcmp; by intros []).
  destruct (List.find _ candidates) as [c|]; cbn; auto.
Qed.

Lemma C1_verify_recovers_and_matches_witness :
  let o := Key.verify Toy.imports (Toy.message 5) Toy.signature None Toy.hash_only_key in
  exists stored,
    value (Key.hash160 Toy.imports None Toy.hash_only_key) = Ok stored
    /\ state o = Toy.hash_only_key
    /\ List.filter is_recovery_call (calls o)
       = [call_possible_public_pairs_for_signature 5 (3, 2)]
    /\ match List.find (matches_identity Toy.imports stored)
                [(None, None); (Some 4, Some 5)] with
       | Some candidate =>
           value o = Ok (Toy.verify candidate 5 (3, 2))
           /\ List.filter is_verify_call (calls o) = [call_verify candidate 5 (3, 2)]
       | None =>
           value o = Ok false /\ List.filter is_verify_call (calls o) = []
       end.
Proof.
  apply (C1_verify_recovers_and_matches Toy.imports Toy.hash_only_key
           (Toy.message 5) Toy.signature None Toy.generator 5 (3, 2));
    reflexivity.
Defined.

(** C2.  For a Key constructed from a secret exponent and a generator and
    a message hash [h], [sign] returns a signature and [verify] of [h] and
    this signature returns [true]; it calls the verify primitive on the
    Key's own public pair and makes no recovery call.  The generator is
    taken to accept, for the Key's public pair, the signature it produced,
    and DER decoding to invert DER encoding on that signature. *)
Theorem C2_verify_accepts_own_signature :
  forall imp class_ s g pu ic ps k h val,
    Key.__init__ class_ (Some s) (Some g) None None pu ic ps = Ok k ->
    Imports.from_bytes_32 imp h = Some val ->
    let rs := Generator.sign g s val in
    Imports.sigdecode_der imp (Imports.sigencode_der imp (fst rs) (snd rs)) = Some rs ->
    Generator.verify g (Generator.mul g s) val rs = true ->
    exists sig,
      value (Key.sign imp h k) = Ok sig
      /\ state (Key.sign imp h k) = k
      /\ Key.verify imp h sig None k
         = Outcome (Ok true) k
             [call_from_bytes_32 h; call_sigdecode_der sig;
              call_verify (Generator.mul g s) val rs]
      /\ List.filter is_recovery_call (calls (Key.verify imp h sig None k)) = [].
Proof.
  intros imp class_ s g pu ic ps k h val Hk Hh rs Hder Hecdsa.
  assert (Key._secret_exponent k = Some s /\ Key._generator k = Some g
          /\ Key._public_pair k = Some (Generator.mul g s)) as (Hs & Hg & Hp).
  { rewrite init_secret_alone in Hk.
    repeat case_match; try discriminate; injection Hk as <-; cbn; auto. }
  exists (Imports.sigencode_der imp (fst rs) (snd rs)).
  rewrite (sign_private imp k h s g val Hs Hg Hh). fold rs. cbn [value state].
  split; [reflexivity|]. split; [reflexivity|].
  rewrite (verify_with_public_pair imp k h _ None g val rs _ Hp Hg Hh Hder).
  rewrite Hecdsa. split; reflexivity.
Qed.

Lemma C2_verify_accepts_own_signature_witness :
  exists sig,
    value (Key.sign Toy.imports (Toy.message 5) Toy.private_key) = Ok sig
    /\ state (Key.sign Toy.imports (Toy.message 5) Toy.private_key) = Toy.private_key
    /\ Key.verify Toy.imports (Toy.message 5) sig None Toy.private_key
       = Outcome (Ok true) Toy.private_key
           [call_from_bytes_32 (Toy.message 5); call_sigdecode_der sig;
            call_verify (Some 4, Some 5) 5 (3, 2)]
    /\ List.filter is_recovery_call
         (calls (Key.verify Toy.imports (Toy.message 5) sig None Toy.private_key)) = [].
Proof.
  apply (C2_verify_accepts_own_signature Toy.imports Key.Key 4 Toy.generator
           None None false Toy.private_key (Toy.message 5) 5);
    reflexivity.
Defined.

(** Without a public pair and with nothing in the preferred slot,
    [verify] accepts nothing, whatever it is given: it raises or returns
    [false], and never reaches the verify primitive. *)
Lemma verify_unmatched imp k h sig generator :
  Key._public_pair k = None ->
  slot (Key._prefer_uncompressed k) k = None ->
  value (Key.verify imp h sig generator k) <> Ok true
  /\ state (Key.verify imp h sig generator k) = k
  /\ List.filter is_verify_call (calls (Key.verify imp h sig generator k)) = [].
Proof.
  intros Hp Hslot.
  destruct (resolved_generator generator k) as [g|] eqn:Hg;
    [destruct (Imports.from_bytes_32 imp h) as [val|] eqn:Hh;
     [destruct (Imports.sigdecode_der imp sig) as [rs|] eqn:Hsig|]|].
  - destruct (verify_hash_only imp k h sig generator g val rs Hp Hg Hh Hsig)
      as (cmp & Hcmp & ->).
    cbn [value state calls]. unfold verify_by_recovery.
    rewrite Hslot, first_match_None. split; [discriminate|]. split; [reflexivity|].
    cbn [List.filter app is_verify_call]. rewrite app_nil_r.
    apply filter_comparisons; [by intros []|exact Hcmp].
  - unfold Key.verify. rewrite bind_pure with (a := k) by reflexivity.
    rewrite resolved_generator_eq, Hg, Hh.
    erewrite bind_step by reflexivity. cbn beta.
    rewrite bind_pure with (a := Key._public_pair k) by reflexivity.
    rewrite Hsig. cbn. repeat split; discriminate.
  - unfold Key.verify. rewrite bind_pure with (a := k) by reflexivity.
    rewrite resolved_generator_eq, Hg, Hh. cbn. repeat split; discriminate.
  - unfold Key.verify. rewrite bind_pure with (a := k) by reflexivity.
    rewrite resolved_generator_eq, Hg. cbn. repeat split; discriminate.
Qed.

(** C10.  A Key built from a hash160 with [is_compressed] and
    [prefer_uncompressed] both [b] stores the hash in the slot of one
    variant and prefers the other: [hash160()] returns [None], and
    [verify] returns [false], without calling the verify primitive, for
    every message hash and every signature that decodes (with a
    generator at hand); whatever it is given, it never returns [true]. *)
Theorem C10_mismatched_preference_never_verifies :
  forall imp class_ g0 h160 b ps,
    exists k,
      Key.__init__ class_ None g0 None (Some h160) (Some b) (Some b) ps = Ok k
      /\ slot (negb b) k = (if truthy_bytes (Some h160) then Some h160 else None)
      /\ variant None k = b
      /\ Key.hash160 imp None k = Outcome (Ok None) k []
      /\ (forall h sig generator g val rs,
          resolved_generator generator k = Some g ->
          Imports.from_bytes_32 imp h = Some val ->
          Imports.sigdecode_der imp sig = Some rs ->
          value (Key.verify imp h sig generator k) = Ok false)
      /\ (forall h sig generator,
          value (Key.verify imp h sig generator k) <> Ok true
          /\ state (Key.verify imp h sig generator k) = k
          /\ List.filter is_verify_call (calls (Key.verify imp h sig generator k)) = []).
Proof.
  intros imp class_ g0 h160 b ps.
  rewrite init_hash_alone. cbv zeta.
  eexists. split; [reflexivity|].
  match goal with |- context [slot _ ?k0] => set (k := k0) end.
  assert (Hp : Key._public_pair k = None) by reflexivity.
  assert (Hslot : slot (Key._prefer_uncompressed k) k = None).
  { subst k. unfold slot. cbn. destruct b; cbn; by rewrite andb_false_r. }
  split; [subst k; unfold slot; destruct b, h160; reflexivity|].
  split; [reflexivity|].
  split; [rewrite hash160_hash_only by exact Hp; cbn [variant]; by rewrite Hslot|].
  split; [|intros h sig generator; by apply verify_unmatched].
  intros h sig generator g val rs Hg Hh Hsig.
  destruct (verify_hash_only imp k h sig generator g val rs Hp Hg Hh Hsig)
    as (cmp & Hcmp & ->).
  cbn [value]. unfold verify_by_recovery. by rewrite Hslot, first_match_None.
Qed.

Lemma C10_mismatched_preference_never_verifies_witness :
  exists k,
    Key.__init__ Key.Key None (Some Toy.generator) None (Some Toy.short_hash)
      (Some true) (Some true) false = Ok k
    /\ value (Key.hash160 Toy.imports None k) = Ok None
    /\ value (Key.verify Toy.imports (Toy.message 5) Toy.signature None k) = Ok false.
Proof.
  destruct (C10_mismatched_preference_never_verifies Toy.imports Key.Key
              (Some Toy.generator) Toy.short_hash true false)
    as (k & Hk & _ & _ & Hh & Hv & _).
  exists k. split; [exact Hk|]. split; [by rewrite Hh|].
  injection Hk as <-.
  apply (Hv (Toy.message 5) Toy.signature None Toy.generator 5 (3, 2));
    reflexivity.
Defined.

(** * The life cycle of a Key *)

Lemma evolves_refl k : evolves k k.
Proof. by repeat split. Qed.

Lemma evolves_trans k1 k2 k3 : evolves k1 k2 -> evolves k2 k3 -> evolves k1 k3.
Proof.
  intros [(?&?&?&?&?) H12] [(?&?&?&?&?) H23].
  repeat split; try congruence. intros u v Hv. by apply H23, H12.
Qed.

Lemma hash_count_app l1 l2 : hash_count (l1 ++ l2) = (hash_count l1 + hash_count l2)%nat.
Proof. unfold hash_count. by rewrite List.filter_app, length_app. Qed.

Create HintDb respects.

Section respects.
Variable imp : Imports.t.

Lemma respects_ret {A} (a : A) : respects (mret a).
Proof. intros k. split; [apply evolves_refl|reflexivity]. Qed.

Lemma respects_get : respects get.
Proof. intros k. split; [apply evolves_refl|reflexivity]. Qed.

Lemma respects_raise {A} e : respects (raise e : M ext_call Key.t A).
Proof. intros k. split; [apply evolves_refl|reflexivity]. Qed.

Lemma respects_ext {A} c (v : A) : is_hash160_call c = false -> respects (ext c v).
Proof. intros Hc k. split; [apply evolves_refl|]. cbn. unfold hash_count. cbn. by rewrite Hc. Qed.

Lemma respects_ext_partial {A} c fn (v : option A) :
  is_hash160_call c = false -> respects (ext_partial c fn v).
Proof.
  intros Hc k. unfold ext_partial. destruct v; (split; [apply evolves_refl|]);
    cbn; unfold hash_count; cbn; by rewrite Hc.
Qed.

Lemma respects_bind {A B} (m : M ext_call Key.t A) (f : A -> M ext_call Key.t B) :
  respects m -> (forall a, respects (f a)) -> respects (m ≫= f).
Proof.
  intros Hm Hf k. specialize (Hm k). unfold mbind, M_bind.
  destruct (m k) as [[a|e] k1 l1]; cbn [value state calls] in *; [|exact Hm].
  specialize (Hf a k1). destruct (f a k1) as [v k2 l2]; cbn [value state calls] in *.
  destruct Hm as [E1 C1], Hf as [E2 C2]. split; [by eapply evolves_trans|].
  rewrite hash_count_app. lia.
Qed.

Lemma respects_hash160 u : respects (Key.hash160 imp u).
Proof.
  intros k. destruct (Key._public_pair k) as [p|] eqn:Hp.
  - destruct (slot (variant u k) k) as [v|] eqn:Hs.
    + rewrite (hash160_cached imp u k v Hs). split; [apply evolves_refl|reflexivity].
    + rewrite (hash160_first imp u k p Hp Hs). cbn [state calls].
      unfold fill, slot, unset in *. split.
      * split; [by destruct (variant u k)|].
        intros u' v. unfold slot. destruct (variant u k), u'; cbn; congruence.
      * unfold hash_count. cbn. destruct (variant u k); cbn; rewrite Hs; cbn; lia.
  - rewrite (hash160_hash_only imp u k Hp). split; [apply evolves_refl|reflexivity].
Qed.

Ltac respects_step :=
  lazymatch goal with
  | |- respects (mret _) => apply respects_ret
  | |- respects get => apply respects_get
  | |- respects (raise _) => apply respects_raise
  | |- respects (ext _ _) => apply respects_ext; reflexivity
  | |- respects (ext_partial _ _ _) => apply respects_ext_partial; reflexivity
  | |- respects (Key.hash160 _ _) => apply respects_hash160
  | |- respects (_ ≫= _) => apply respects_bind; [|intros ?]
  | |- respects (if _ then _ else _) => case_match
  | |- respects (match _ with _ => _ end) => case_match
  | |- respects _ => first [progress cbv zeta | solve [auto with respects]]
  end.

Ltac respects_tac := repeat respects_step.


Lemma respects_use_uncompressed u : respects (Key._use_uncompressed u).
Proof. unfold Key._use_uncompressed. respects_tac. Qed.

Lemma respects_secret_exponent : respects Key.secret_exponent.
Proof. unfold Key.secret_exponent. respects_tac. Qed.

Lemma respects_public_pair : respects Key.public_pair.
Proof. unfold Key.public_pair. respects_tac. Qed.

Lemma respects_is_private : respects Key.is_private.
Proof. unfold Key.is_private, Key.secret_exponent. respects_tac. Qed.

#[local] Hint Resolve respects_use_uncompressed respects_secret_exponent
  respects_public_pair respects_is_private : respects.

Lemma respects_wif u p : respects (Key.wif imp u p).
Proof. unfold Key.wif. respects_tac. Qed.

Lemma respects_sec u : respects (Key.sec imp u).
Proof. unfold Key.sec. respects_tac. Qed.

#[local] Hint Resolve respects_wif respects_sec : respects.

Lemma respects_sec_as_hex u p : respects (Key.sec_as_hex imp u p).
Proof. unfold Key.sec_as_hex. respects_tac. Qed.

Lemma respects_address u p : respects (Key.address imp u p).
Proof. unfold Key.address. respects_tac. Qed.

#[local] Hint Resolve respects_sec_as_hex respects_address : respects.

Lemma respects_as_text a s w : respects (Key.as_text imp a s w).
Proof. unfold Key.as_text. respects_tac. Qed.

Lemma respects_sign h : respects (Key.sign imp h).
Proof. unfold Key.sign. respects_tac. Qed.

Lemma respects_find_pubkey stored candidates :
  respects (Key.find_pubkey imp stored candidates).
Proof.
  induction candidates as [|c rest IH]; cbn [Key.find_pubkey]; respects_tac.
Qed.

#[local] Hint Resolve respects_find_pubkey : respects.

Lemma respects_verify h sig g : respects (Key.verify imp h sig g).
Proof. unfold Key.verify. respects_tac. Qed.

End respects.

#[local] Hint Resolve respects_get respects_use_uncompressed
  respects_secret_exponent respects_public_pair respects_is_private
  respects_wif respects_sec respects_sec_as_hex respects_hash160
  respects_address respects_as_text respects_sign respects_verify : respects.

Lemma calls_of_app kind l log1 log2 :
  calls_of kind l (log1 ++ log2) = calls_of kind l log1 ++ calls_of kind l log2.
Proof. unfold calls_of. by rewrite List.filter_app, map_app. Qed.

Lemma calls_of_same kind l cs :
  calls_of kind l (map (pair l) cs) = List.filter kind cs.
Proof.
  unfold calls_of. induction cs as [|c cs IH]; [reflexivity|].
  cbn. rewrite Nat.eqb_refl. cbn. destruct (kind c); cbn; by rewrite IH.
Qed.

Lemma calls_of_other kind l l' cs :
  l' <> l -> calls_of kind l (map (pair l') cs) = [].
Proof.
  intros Hne. unfold calls_of. induction cs as [|c cs IH]; [reflexivity|].
  cbn. destruct (Nat.eqb_spec l' l) as [?|_]; [done|]. cbn. exact IH.
Qed.

Section heap_respects.
Variable imp : Imports.t.
Variable l : loc.

Local Abbreviation W := (M (loc * ext_call) (gmap loc Key.t)).

Lemma heap_respects_ret {A} (a : A) : heap_respects l (mret a : W A).
Proof.
  intros h k Hk. exists k. cbn. split; [exact Hk|]. split; [apply evolves_refl|lia].
Qed.

Lemma heap_respects_bind {A B} (m : W A) (f : A -> W B) :
  heap_respects l m -> (forall a, heap_respects l (f a)) -> heap_respects l (m ≫= f).
Proof.
  intros Hm Hf h k Hk. destruct (Hm h k Hk) as (k1 & Hk1 & E1 & C1).
  unfold mbind, M_bind.
  destruct (m h) as [[a|e] h1 l1]; cbn [value state calls] in *;
    [|exists k1; auto].
  destruct (Hf a h1 k1 Hk1) as (k2 & Hk2 & E2 & C2).
  destruct (f a h1) as [v h2 l2]; cbn [value state calls] in *.
  exists k2. split; [exact Hk2|]. split; [by eapply evolves_trans|].
  rewrite calls_of_app, length_app. lia.
Qed.

Lemma heap_respects_on {A} self (m : M ext_call Key.t A) :
  respects m -> heap_respects l (on self m).
Proof.
  intros Hm h k Hk. unfold on.
  destruct (decide (self = l)) as [->|Hne].
  - rewrite Hk. cbn [value state calls].
    destruct (Hm k) as [E C]. exists (state (m k)).
    rewrite lookup_insert_eq, calls_of_same. auto.
  - destruct (h !! self) as [k0|] eqn:H0; cbn [value state calls].
    + exists k. rewrite lookup_insert_ne by done.
      rewrite calls_of_other by done. split; [exact Hk|].
      split; [apply evolves_refl|reflexivity].
    + exists k. split; [exact Hk|]. split; [apply evolves_refl|reflexivity].
Qed.

Lemma heap_respects_new r : heap_respects l (new r).
Proof.
  intros h k Hk. unfold new. destruct r as [k0|e]; cbn [value state calls].
  - exists k. rewrite lookup_insert_ne.
    + split; [exact Hk|]. split; [apply evolves_refl|reflexivity].
    + intros Heq. apply (is_fresh (dom h)). rewrite Heq.
      apply elem_of_dom. by exists k.
  - exists k. split; [exact Hk|]. split; [apply evolves_refl|reflexivity].
Qed.

Ltac heap_respects_step :=
  lazymatch goal with
  | |- heap_respects _ (mret _) => apply heap_respects_ret
  | |- heap_respects _ (on _ _) =>
      apply heap_respects_on;
      solve [auto with respects]
  | |- heap_respects _ (new _) => apply heap_respects_new
  | |- heap_respects _ (_ ≫= _) => apply heap_respects_bind; [|intros ?]
  | |- heap_respects _ (if _ then _ else _) => case_match
  | |- heap_respects _ (match _ with _ => _ end) => case_match
  | |- heap_respects _ _ => solve [auto with respects]
  end.

Lemma heap_respects_public_copy self : heap_respects l (public_copy self).
Proof. unfold public_copy. repeat heap_respects_step. Qed.

Lemma heap_respects_repr self : heap_respects l (__repr__ imp self).
Proof.
  unfold __repr__.
  apply heap_respects_bind; [apply heap_respects_public_copy|intros c].
  repeat heap_respects_step.
Qed.

Lemma heap_respects_invoke self c : heap_respects l (invoke imp self c).
Proof.
  destruct c; unfold invoke, discard, subkey, subkeys;
    (apply heap_respects_bind; [|intros ?; apply heap_respects_ret]);
    first [ apply heap_respects_public_copy | apply heap_respects_repr
          | apply heap_respects_ret | apply heap_respects_on ];
    auto with respects.
Qed.

(** The invariant of a whole program. *)
Lemma run_respects program : forall (h : gmap loc Key.t) log0 k,
  h !! l = Some k ->
  exists k',
    fst (fold_left (step imp) program (h, log0)) !! l = Some k'
    /\ evolves k k'
    /\ (length (calls_of is_hash160_call l (snd (fold_left (step imp) program (h, log0))))
        + unset k'
        = length (calls_of is_hash160_call l log0) + unset k)%nat.
Proof.
  induction program as [|[self c] program IH]; intros h log0 k Hk.
  - exists k. cbn. split; [exact Hk|]. split; [apply evolves_refl|reflexivity].
  - cbn [fold_left].
    change (step imp (h, log0) (self, c))
      with (state (invoke imp self c h), log0 ++ calls (invoke imp self c h)).
    destruct (heap_respects_invoke self c h k Hk) as (k1 & Hk1 & E1 & C1).
    destruct (IH (state (invoke imp self c h)) (log0 ++ calls (invoke imp self c h)) k1 Hk1)
      as (k2 & Hk2 & E2 & C2).
    exists k2. split; [exact Hk2|]. split; [by eapply evolves_trans|].
    rewrite C2, calls_of_app, length_app. lia.
Qed.

End heap_respects.

Lemma on_pure {A} (m : M ext_call Key.t A) (h : gmap loc Key.t) l k a :
  h !! l = Some k -> m k = Outcome (Ok a) k [] ->
  on l m h = Outcome (Ok a) h [].
Proof.
  intros Hk Hm. unfold on. rewrite Hk, Hm. cbn. by rewrite insert_id.
Qed.

(** What the constructor returns is constructed, and stays so while it
    evolves. *)
Lemma init_constructed class_ se g pp h pu ic ps k :
  Key.__init__ class_ se g pp h pu ic ps = Ok k -> constructed k.
Proof.
  intros H. exists class_, se, g, pp, h, pu, ic, ps, k.
  split; [exact H|]. by repeat split.
Qed.

Lemma constructed_evolves k k' : constructed k -> evolves k k' -> constructed k'.
Proof.
  intros (class_ & se & g & pp & h & pu & ic & ps & k0 & H & (?&?&?&?&?))
         [(?&?&?&?&?) _].
  exists class_, se, g, pp, h, pu, ic, ps, k0.
  split; [exact H|]. repeat split; congruence.
Qed.

(** A private Key that came out of the constructor has a public pair with
    both coordinates. *)
Lemma constructed_private k s :
  constructed k -> Key._secret_exponent k = Some s ->
  exists p, Key._public_pair k = Some p /\ None_in p = false.
Proof.
  intros (class_ & se & g & pp & h & pu & ic & ps & k0 & Hinit & Hsame) Hs.
  destruct Hsame as (_ & _ & Hsec & _ & Hpp). rewrite <- Hsec in Hs. rewrite <- Hpp.
  clear Hsec Hpp k.
  destruct (decide (supplied se pp h = 1%nat)) as [H1|H1];
    [|rewrite init_arity in Hinit by done; discriminate].
  unfold supplied in H1.
  destruct se as [s'|], pp as [p|], h as [h160|]; cbn in H1; try lia.
  - rewrite init_secret_alone in Hinit.
    repeat case_match; try discriminate; injection Hinit as <-; cbn;
      (eexists; split; [reflexivity|]; by subst).
  - apply init_public_alone in Hinit as (Hnone & _). congruence.
  - rewrite init_hash_alone in Hinit. injection Hinit as <-. discriminate.
Qed.

(** The constructor call of [public_copy]. *)
Lemma init_public_copy class_ p pu ic :
  None_in p = false ->
  Key.__init__ class_ None None (Some p) None (Some pu) ic false
  = Ok {| Key.__class__ := class_;
          Key._prefer_uncompressed := pu;
          Key._secret_exponent := None;
          Key._generator := None;
          Key._public_pair := Some p;
          Key._hash160_uncompressed := None;
          Key._hash160_compressed := None |}.
Proof.
  intros Hp. unfold Key.__init__; cbn. rewrite Hp. by destruct ic as [[]|].
Qed.

Lemma public_copy_public (h : gmap loc Key.t) l k :
  h !! l = Some k -> Key._secret_exponent k = None ->
  public_copy l h = Outcome (Ok l) h [].
Proof.
  intros Hk Hs. unfold public_copy.
  erewrite bind_pure by (eapply on_pure; [exact Hk|reflexivity]).
  by rewrite Hs.
Qed.

Lemma public_copy_private (h : gmap loc Key.t) l k s :
  h !! l = Some k -> constructed k -> Key._secret_exponent k = Some s ->
  public_copy l h
  = Outcome (Ok (fresh (dom h))) (<[fresh (dom h) := stripped k]> h) [].
Proof.
  intros Hk Hc Hs. destruct (constructed_private k s Hc Hs) as (p & Hp & Hnone).
  unfold public_copy.
  erewrite bind_pure by (eapply on_pure; [exact Hk|reflexivity]).
  rewrite Hs. cbn [is_None].
  erewrite bind_pure by (eapply on_pure; [exact Hk|reflexivity]).
  erewrite bind_pure by (eapply on_pure; [exact Hk|reflexivity]).
  rewrite Hp, init_public_copy by exact Hnone.
  unfold new, stripped. by rewrite Hp.
Qed.

(** C8, as stated, fails on its last clause: the copy of a private Key
    whose compressed slot is filled has both slots empty. *)
Lemma C8_slots_not_preserved_counterexample :
  let k := state (Key.hash160 Toy.imports None Toy.private_key) in
  let o := public_copy 0%nat ({[0%nat := k]} : gmap loc Key.t) in
  populated k = (false, true)
  /\ value o = Ok 1%nat
  /\ (populated <$> state o !! 1%nat) = Some (false, false)
  /\ (populated <$> state o !! 1%nat) <> Some (populated k).
Proof. vm_compute. repeat split; discriminate. Qed.

(** C8, amended.  [public_copy] on a Key without a secret exponent returns
    the receiver itself and leaves the heap as it is; on a private Key it
    returns a new object, whose secret exponent is [None], which holds the
    public pair of the receiver and no generator, and has the receiver's
    class and compression preference; both memoization slots of the copy
    are empty, whichever slots of the receiver are filled. *)
Theorem C8_public_copy_strips_secret :
  forall (h : gmap loc Key.t) l k,
    h !! l = Some k ->
    constructed k ->
    (Key._secret_exponent k = None -> public_copy l h = Outcome (Ok l) h [])
    /\ (forall s,
        Key._secret_exponent k = Some s ->
        exists l' k',
          public_copy l h = Outcome (Ok l') (<[l' := k']> h) []
          /\ h !! l' = None
          /\ <[l' := k']> h !! l = Some k
          /\ value (Key.secret_exponent k') = Ok None
          /\ Key._generator k' = None
          /\ Key._public_pair k' = Key._public_pair k
          /\ Key._public_pair k' <> None
          /\ Key._prefer_uncompressed k' = Key._prefer_uncompressed k
          /\ Key.__class__ k' = Key.__class__ k
          /\ populated k' = (false, false)).
Proof.
  intros h l k Hk Hc. split.
  - intros Hs. by apply public_copy_public with k.
  - intros s Hs. exists (fresh (dom h)), (stripped k).
    assert (Hfresh : h !! fresh (dom h) = None)
      by (apply not_elem_of_dom, is_fresh).
    split; [by apply public_copy_private with s|].
    split; [exact Hfresh|].
    split; [rewrite lookup_insert_ne; [exact Hk|congruence]|].
    destruct (constructed_private k s Hc Hs) as (p & Hp & _).
    cbn. rewrite Hp. repeat split; done.
Qed.

Lemma C8_public_copy_strips_secret_witness :
  exists l' k',
    public_copy 0%nat ({[0%nat := Toy.private_key]} : gmap loc Key.t)
    = Outcome (Ok l') (<[l' := k']> {[0%nat := Toy.private_key]}) []
    /\ ({[0%nat := Toy.private_key]} : gmap loc Key.t) !! l' = None
    /\ <[l' := k']> ({[0%nat := Toy.private_key]} : gmap loc Key.t) !! 0%nat
       = Some Toy.private_key
    /\ value (Key.secret_exponent k') = Ok None
    /\ Key._generator k' = None
    /\ Key._public_pair k' = Key._public_pair Toy.private_key
    /\ Key._public_pair k' <> None
    /\ Key._prefer_uncompressed k' = Key._prefer_uncompressed Toy.private_key
    /\ Key.__class__ k' = Key.__class__ Toy.private_key
    /\ populated k' = (false, false).
Proof.
  assert (Hk : ({[0%nat := Toy.private_key]} : gmap loc Key.t) !! 0%nat
               = Some Toy.private_key) by reflexivity.
  assert (Hc : constructed Toy.private_key)
    by (apply (init_constructed Key.Key (Some 4) (Some Toy.generator)
                 None None None None false); reflexivity).
  exact (proj2 (C8_public_copy_strips_secret _ 0%nat Toy.private_key Hk Hc)
           4 eq_refl).
Defined.

(** C9, as stated, fails for the serialized encoding: two calls of [sec]
    on one Key, for one variant, encode the public pair twice. *)
Lemma C9_sec_recomputed_counterexample :
  let h := ({[0%nat := Toy.private_key]} : gmap loc Key.t) in
  let w := run Toy.imports [(0%nat, call_sec None); (0%nat, call_sec None)] h in
  calls_of is_sec_call 0%nat (snd w)
  = [call_public_pair_to_sec (Some 4, Some 5) true;
     call_public_pair_to_sec (Some 4, Some 5) true]
  /\ (populated <$> fst w !! 0%nat) = Some (false, false).
Proof. vm_compute. split; reflexivity. Qed.

(** C9, amended.  Through any sequence of method calls, on any receivers,
    a Key keeps its class, preference, secret exponent, generator and
    public pair; a filled memoization slot keeps its value; and the number
    of short hashes computed for the Key is the number of its slots that
    went from empty to filled, so each variant is hashed at most once.
    [hash160] returns a filled slot without calling anything; on an empty
    slot of a Key with a public pair it encodes, hashes, and stores what it
    returns.  The serialized encoding is not cached: every call of [sec]
    encodes the public pair again. *)
Theorem C9_memoization_life_cycle :
  forall imp,
    (forall program (h : gmap loc Key.t) l k,
        h !! l = Some k ->
        exists k',
          fst (run imp program h) !! l = Some k'
          /\ same_attributes k k'
          /\ (forall u v, slot u k = Some v -> slot u k' = Some v)
          /\ (length (calls_of is_hash160_call l (snd (run imp program h)))
              + unset k' = unset k)%nat)
    /\ (forall k u v,
        slot (variant u k) k = Some v ->
        Key.hash160 imp u k = Outcome (Ok (Some v)) k [])
    /\ (forall k u p,
        Key._public_pair k = Some p ->
        slot (variant u k) k = None ->
        let b := Imports.public_pair_to_sec imp p (negb (variant u k)) in
        let v := Imports.hash160 imp b in
        Key.hash160 imp u k
        = Outcome (Ok (Some v)) (fill (variant u k) k v)
            [call_public_pair_to_sec p (negb (variant u k)); call_hash160 b]
        /\ slot (variant u k) (fill (variant u k) k v) = Some v)
    /\ (forall k u p,
        Key._public_pair k = Some p ->
        Key.sec imp u k
        = Outcome (Ok (Some (Imports.public_pair_to_sec imp p (negb (variant u k))))) k
            [call_public_pair_to_sec p (negb (variant u k))]).
Proof.
  intros imp. split; [|split; [|split]].
  - intros program h l k Hk.
    destruct (run_respects imp l program h [] k Hk) as (k' & Hk' & [Hsame Hslot] & Hcount).
    exists k'. unfold run. split; [exact Hk'|]. split; [exact Hsame|].
    split; [exact Hslot|]. exact Hcount.
  - intros k u v H. by apply hash160_cached.
  - intros k u p Hp Hs b v. split; [by apply hash160_first|].
    unfold fill, slot. by destruct (variant u k).
  - intros k u p Hp. by apply sec_spec.
Qed.

Lemma C9_memoization_life_cycle_witness :
  let h := ({[0%nat := Toy.private_key]} : gmap loc Key.t) in
  let program :=
    [(0%nat, call_hash160_method None); (0%nat, call_sec None);
     (0%nat, call_hash160_method (Some false)); (0%nat, call_repr);
     (1%nat, call_address (Some true) (Some [x00]))] in
  exists k',
    fst (run Toy.imports program h) !! 0%nat = Some k'
    /\ same_attributes Toy.private_key k'
    /\ (forall u v, slot u Toy.private_key = Some v -> slot u k' = Some v)
    /\ (length (calls_of is_hash160_call 0%nat (snd (run Toy.imports program h)))
        + unset k' = unset Toy.private_key)%nat.
Proof.
  intros h program.
  apply (proj1 (C9_memoization_life_cycle Toy.imports) program h 0%nat
           Toy.private_key).
  reflexivity.
Defined.

(** * Further properties of construction *)

Lemma init_public_rejected class_ g p pu ic ps :
  None_in p = true
  \/ (exists g' x y, g = Some g' /\ p = (Some x, Some y)
                     /\ Generator.contains_point g' x y = false) ->
  Key.__init__ class_ None g (Some p) None pu ic ps = Raise InvalidPublicPairError.
Proof.
  unfold Key.__init__; cbn.
  intros [-> | (g' & x & y & -> & -> & Hc)]; cbn; [reflexivity|].
  by rewrite Hc.
Qed.

Lemma init_public_accepted class_ g p pu ic ps :
  None_in p = false ->
  (forall g' x y, g = Some g' -> p = (Some x, Some y) ->
                  Generator.contains_point g' x y = true) ->
  Key.__init__ class_ None g (Some p) None pu ic ps
  = Ok {| Key.__class__ := class_;
          Key._prefer_uncompressed :=
            match pu, ic with
            | Some b, _ => b
            | None, Some c => negb c
            | None, None => false
            end;
          Key._secret_exponent := None;
          Key._generator := g;
          Key._public_pair := Some p;
          Key._hash160_uncompressed := None;
          Key._hash160_compressed := None |}.
Proof.
  intros Hp Hc. unfold Key.__init__; cbn. rewrite Hp. cbn.
  destruct g as [g'|], p as [[x|] [y|]]; cbn;
    try rewrite (Hc g' x y eq_refl eq_refl); cbn;
    destruct pu as [[]|], ic as [[]|]; reflexivity.
Qed.

(** X1.  Construction from a public pair alone fails with the
    invalid-public-pair error exactly when a coordinate is [None], or a
    generator is given and its membership test rejects the pair; without a
    generator no membership test is made.  When it succeeds the Key holds
    the pair, the generator as given, no secret exponent and empty slots. *)
Theorem X1_public_pair_validation :
  forall class_ g p pu ic ps,
    let rejected :=
      None_in p = true
      \/ (exists g' x y, g = Some g' /\ p = (Some x, Some y)
                         /\ Generator.contains_point g' x y = false) in
    (Key.__init__ class_ None g (Some p) None pu ic ps = Raise InvalidPublicPairError
     <-> rejected)
    /\ (~ rejected ->
        exists k,
          Key.__init__ class_ None g (Some p) None pu ic ps = Ok k
          /\ Key._public_pair k = Some p
          /\ Key._generator k = g
          /\ Key._secret_exponent k = None
          /\ populated k = (false, false)).
Proof.
  intros class_ g p pu ic ps rejected.
  assert (Hdec : rejected \/
    (None_in p = false /\
     forall g' x y, g = Some g' -> p = (Some x, Some y) ->
                    Generator.contains_point g' x y = true)).
  { subst rejected. destruct (None_in p) eqn:Hp; [by left; left|].
    destruct g as [g'|]; [|right; split; [done|]; intros; discriminate].
    destruct p as [[x|] [y|]]; try discriminate.
    destruct (Generator.contains_point g' x y) eqn:Hc.
    - right. split; [done|]. intros ? ? ? [= <-] [= <- <-]. exact Hc.
    - left. right. by exists g', x, y. }
  split.
  - split; [|apply init_public_rejected].
    intros H. destruct Hdec as [Hr | [Hp Hc]]; [exact Hr|].
    rewrite init_public_accepted in H by done. discriminate.
  - intros Hnot. destruct Hdec as [Hr | [Hp Hc]]; [done|].
    rewrite init_public_accepted by done.
    eexists. by repeat split.
Qed.

Lemma X1_public_pair_validation_witness :
  exists k,
    Key.__init__ Key.Key None None (Some (Some 7, Some 9)) None None None false = Ok k
    /\ Key._public_pair k = Some (Some 7, Some 9)
    /\ Key._generator k = None
    /\ Key._secret_exponent k = None
    /\ populated k = (false, false).
Proof.
  apply (proj2 (X1_public_pair_validation Key.Key None (Some 7, Some 9)
                  None None false)).
  intros [H | (g' & x & y & H & _)]; discriminate.
Defined.

(** What the constructor returns, by the key material supplied. *)
Lemma init_shapes class_ se g pp h pu ic ps k :
  Key.__init__ class_ se g pp h pu ic ps = Ok k ->
  Key.__class__ k = class_
  /\ Key._generator k = g
  /\ Key._secret_exponent k = se
  /\ populated k = (truthy_bytes h && negb (match ic with
                                           | Some b => b
                                           | None => negb (truthy_bytes h)
                                           end),
                    truthy_bytes h && match ic with
                                      | Some b => b
                                      | None => negb (truthy_bytes h)
                                      end)
  /\ ((exists s g', se = Some s /\ g = Some g' /\ pp = None /\ h = None
                    /\ in_order g' s
                    /\ Key._public_pair k = Some (Generator.mul g' s)
                    /\ passes_membership g' (Generator.mul g' s))
      \/ (exists p, se = None /\ pp = Some p /\ h = None
                    /\ Key._public_pair k = Some p /\ None_in p = false
                    /\ forall g', g = Some g' -> passes_membership g' p)
      \/ (exists h160, se = None /\ pp = None /\ h = Some h160
                       /\ Key._public_pair k = None)).
Proof.
  intros Hinit.
  destruct (decide (supplied se pp h = 1%nat)) as [H1|H1];
    [|rewrite init_arity in Hinit by done; discriminate].
  unfold supplied in H1.
  destruct se as [s|], pp as [p|], h as [h160|]; cbn in H1; try lia.
  - rewrite init_secret_alone in Hinit.
    destruct (negb (s =? 0) && negb (truthy_obj g)); [discriminate|].
    destruct (s <? 1) eqn:Hlo; [discriminate|].
    destruct g as [g'|]; [|discriminate].
    destruct (s >=? Generator.order g') eqn:Hhi; [discriminate|].
    rewrite Z.geb_leb in Hhi.
    destruct (Generator.mul g' s) as [[x|] [y|]] eqn:Hm; try discriminate.
    destruct (Generator.contains_point g' x y) eqn:Hc; [|discriminate].
    injection Hinit as <-. cbn.
    do 4 (split; [reflexivity|]).
    left. exists s, g'. unfold in_order. rewrite Hm.
    repeat split; try done; try lia.
    by exists x, y.
  - destruct (None_in p) eqn:Hp;
      [rewrite init_public_rejected in Hinit by (by left); discriminate|].
    destruct g as [g'|].
    + destruct p as [[x|] [y|]]; try discriminate.
      destruct (Generator.contains_point g' x y) eqn:Hc;
        [|rewrite init_public_rejected in Hinit
            by (right; by exists g', x, y); discriminate].
      rewrite init_public_accepted in Hinit
        by (try done; by intros ? ? ? [= <-] [= <- <-]).
      injection Hinit as <-. cbn.
      do 4 (split; [reflexivity|]).
      right; left. eexists. repeat split; try done.
      intros ? [= <-]. by exists x, y.
    + rewrite init_public_accepted in Hinit by done.
      injection Hinit as <-. cbn.
      do 4 (split; [reflexivity|]).
      right; left. eexists. repeat split; done.
  - rewrite init_hash_alone in Hinit. injection Hinit as <-. cbn.
    split; [done|]. split; [done|]. split; [done|]. split.
    + unfold populated; cbn.
      destruct h160 as [|b0 h160], ic as [[]|]; reflexivity.
    + right; right. by exists h160.
Qed.

(** X2.  Whatever the arguments, a Key the constructor returns has the
    class, generator and secret exponent it was given.  With a secret
    exponent it has a generator, the exponent lies in [[1, order)], and its
    public pair is the generator's multiple; a public pair it holds has
    both coordinates and passes the membership test of the generator, if
    there is one, and both slots are then empty; without a public pair
    there is no secret exponent and at most one slot is filled. *)
Theorem X2_constructor_invariant :
  forall class_ se g pp h pu ic ps k,
    Key.__init__ class_ se g pp h pu ic ps = Ok k ->
    Key.__class__ k = class_
    /\ Key._generator k = g
    /\ Key._secret_exponent k = se
    /\ (forall s, Key._secret_exponent k = Some s ->
        exists g', g = Some g' /\ in_order g' s
                   /\ Key._public_pair k = Some (Generator.mul g' s))
    /\ (forall p, Key._public_pair k = Some p ->
        None_in p = false
        /\ (forall g', g = Some g' -> passes_membership g' p)
        /\ populated k = (false, false))
    /\ (Key._public_pair k = None ->
        Key._secret_exponent k = None /\ (1 <= unset k)%nat).
Proof.
  intros class_ se g pp h pu ic ps k Hinit.
  destruct (init_shapes _ _ _ _ _ _ _ _ _ Hinit)
    as (Hc & Hg & Hs & Hpop & Hshape).
  split; [exact Hc|]. split; [exact Hg|]. split; [exact Hs|].
  destruct Hshape as [(s & g' & -> & -> & -> & -> & Hin & Hp & Hm)
                     |[(p & -> & -> & -> & Hp & Hn & Hm)
                      |(h160 & -> & -> & -> & Hp)]].
  - split; [|split].
    + rewrite Hs. intros s' [= <-]. by exists g'.
    + rewrite Hp. intros p [= <-]. split.
      * destruct Hm as (x & y & -> & _). reflexivity.
      * split; [by intros ? [= <-]|]. exact Hpop.
    + rewrite Hp. discriminate.
  - split; [|split].
    + rewrite Hs. discriminate.
    + rewrite Hp. intros p' [= <-]. split; [exact Hn|]. split; [exact Hm|].
      exact Hpop.
    + rewrite Hp. discriminate.
  - split; [|split].
    + rewrite Hs. discriminate.
    + rewrite Hp. discriminate.
    + intros _. split; [exact Hs|].
      unfold populated in Hpop. unfold unset.
      injection Hpop as Hu Hcm.
      destruct (Key._hash160_uncompressed k), (Key._hash160_compressed k);
        cbn in *; try lia.
      destruct h160 as [|? ?], ic as [[]|]; cbn in *; discriminate.
Qed.

Lemma X2_constructor_invariant_witness :
  Key.__class__ Toy.private_key = Key.Key
  /\ Key._generator Toy.private_key = Some Toy.generator
  /\ Key._secret_exponent Toy.private_key = Some 4
  /\ (forall s, Key._secret_exponent Toy.private_key = Some s ->
      exists g', Some Toy.generator = Some g' /\ in_order g' s
                 /\ Key._public_pair Toy.private_key = Some (Generator.mul g' s))
  /\ (forall p, Key._public_pair Toy.private_key = Some p ->
      None_in p = false
      /\ (forall g', Some Toy.generator = Some g' -> passes_membership g' p)
      /\ populated Toy.private_key = (false, false))
  /\ (Key._public_pair Toy.private_key = None ->
      Key._secret_exponent Toy.private_key = None
      /\ (1 <= unset Toy.private_key)%nat).
Proof.
  apply (X2_constructor_invariant Key.Key (Some 4) (Some Toy.generator)
           None None None None false Toy.private_key).
  reflexivity.
Defined.

(** X3.  A Key built from a non-empty hash160 with the preference left to
    its default prefers the variant the hash was stored for, whatever
    [is_compressed] says: [hash160()] returns the hash it was given, and
    [verify] matches the recovered candidates against that hash. *)
Theorem X3_default_preference_selects_stored_hash :
  forall imp class_ g0 h160 ic ps,
    truthy_bytes (Some h160) = true ->
    exists k,
      Key.__init__ class_ None g0 None (Some h160) None ic ps = Ok k
      /\ Key.hash160 imp None k = Outcome (Ok (Some h160)) k []
      /\ forall h sig generator g val rs,
          resolved_generator generator k = Some g ->
          Imports.from_bytes_32 imp h = Some val ->
          Imports.sigdecode_der imp sig = Some rs ->
          value (Key.verify imp h sig generator k)
          = Ok (verify_by_recovery imp g (Some h160) val rs).
Proof.
  intros imp class_ g0 h160 ic ps Ht.
  rewrite init_hash_alone. cbv zeta. rewrite Ht.
  eexists. split; [reflexivity|].
  match goal with |- context [Key.hash160 imp None ?k0] => set (k := k0) end.
  assert (Hp : Key._public_pair k = None) by reflexivity.
  assert (Hslot : slot (Key._prefer_uncompressed k) k = Some h160)
    by (subst k; unfold slot; cbn; destruct ic as [[]|]; reflexivity).
  split.
  - rewrite hash160_hash_only by exact Hp. cbn [variant]. by rewrite Hslot.
  - intros h sig generator g val rs Hg Hh Hsig.
    destruct (verify_hash_only imp k h sig generator g val rs Hp Hg Hh Hsig)
      as (cmp & _ & ->).
    cbn [value]. by rewrite Hslot.
Qed.

Lemma X3_default_preference_selects_stored_hash_witness :
  exists k,
    Key.__init__ Key.Key None (Some Toy.generator) None (Some Toy.short_hash)
      None (Some true) false = Ok k
    /\ value (Key.hash160 Toy.imports None k) = Ok (Some Toy.short_hash)
    /\ value (Key.verify Toy.imports (Toy.message 5) Toy.signature None k) = Ok true.
Proof.
  destruct (X3_default_preference_selects_stored_hash Toy.imports Key.Key
              (Some Toy.generator) Toy.short_hash (Some true) false eq_refl)
    as (k & Hk & Hh & Hv).
  exists k. split; [exact Hk|]. split; [by rewrite Hh|].
  injection Hk as <-.
  rewrite (Hv (Toy.message 5) Toy.signature None Toy.generator 5 (3, 2)
             eq_refl eq_refl eq_refl).
  reflexivity.
Defined.

(** * Further properties of signing and verification *)

Section sign_verify_cases.

Variable imp : Imports.t.

Lemma sign_not_private k h :
  Key._secret_exponent k = None ->
  Key.sign imp h k = Outcome (Raise (RuntimeError not_private_msg)) k [].
Proof.
  intros Hs. unfold Key.sign. mpure. by rewrite Hs.
Qed.

Lemma sign_bad_hash k h s :
  Key._secret_exponent k = Some s ->
  Imports.from_bytes_32 imp h = None ->
  Key.sign imp h k
  = Outcome (Raise (ImportedError "from_bytes_32")) k [call_from_bytes_32 h].
Proof.
  intros Hs Hh. unfold Key.sign. mpure. rewrite Hs. cbn [is_None negb].
  rewrite Hh. reflexivity.
Qed.

Lemma sign_no_generator k h s val :
  Key._secret_exponent k = Some s ->
  Imports.from_bytes_32 imp h = Some val ->
  Key._generator k = None ->
  value (Key.sign imp h k)
  = Raise (AttributeError "'NoneType' object has no attribute 'sign'").
Proof.
  intros Hs Hh Hg. unfold Key.sign. mpure. rewrite Hs. cbn [is_None negb].
  rewrite Hh. mext. mpure. by rewrite Hg.
Qed.

Lemma verify_no_generator k h sig generator :
  resolved_generator generator k = None ->
  Key.verify imp h sig generator k
  = Outcome (Raise (ValueError verify_generator_msg)) k [].
Proof.
  intros Hg. unfold Key.verify. mpure. by rewrite resolved_generator_eq, Hg.
Qed.

Lemma verify_bad_hash k h sig generator g :
  resolved_generator generator k = Some g ->
  Imports.from_bytes_32 imp h = None ->
  Key.verify imp h sig generator k
  = Outcome (Raise (ImportedError "from_bytes_32")) k [call_from_bytes_32 h].
Proof.
  intros Hg Hh. unfold Key.verify. mpure.
  rewrite resolved_generator_eq, Hg, Hh. reflexivity.
Qed.

Lemma verify_bad_signature k h sig generator g val :
  resolved_generator generator k = Some g ->
  Imports.from_bytes_32 imp h = Some val ->
  Imports.sigdecode_der imp sig = None ->
  Key.verify imp h sig generator k
  = Outcome (Raise (ImportedError "sigdecode_der")) k
      [call_from_bytes_32 h; call_sigdecode_der sig].
Proof.
  intros Hg Hh Hsig. unfold Key.verify. mpure.
  rewrite resolved_generator_eq, Hg, Hh. mext. mpure. rewrite Hsig.
  reflexivity.
Qed.

End sign_verify_cases.

(** X4.  [sign] raises the not-private error exactly when the Key has no
    secret exponent, and then reads nothing and calls nothing; on a private
    Key that came out of the constructor, with a readable hash, it returns
    the DER encoding of the generator's signature and leaves the Key as it
    is. *)
Theorem X4_sign_requires_secret_exponent :
  forall imp k h,
    (value (Key.sign imp h k) = Raise (RuntimeError not_private_msg)
     <-> Key._secret_exponent k = None)
    /\ (Key._secret_exponent k = None ->
        state (Key.sign imp h k) = k /\ calls (Key.sign imp h k) = [])
    /\ (forall s val,
        constructed k ->
        Key._secret_exponent k = Some s ->
        Imports.from_bytes_32 imp h = Some val ->
        exists g,
          Key._generator k = Some g
          /\ Key.sign imp h k
             = Outcome
                 (Ok (Imports.sigencode_der imp (fst (Generator.sign g s val))
                        (snd (Generator.sign g s val))))
                 k
                 [call_from_bytes_32 h; call_sign s val;
                  call_sigencode_der (fst (Generator.sign g s val))
                    (snd (Generator.sign g s val))]).
Proof.
  intros imp k h. split; [|split].
  - split.
    + intros H. destruct (Key._secret_exponent k) as [s|] eqn:Hs; [|reflexivity].
      destruct (Imports.from_bytes_32 imp h) as [val|] eqn:Hh.
      * destruct (Key._generator k) as [g|] eqn:Hg.
        -- rewrite (sign_private imp k h s g val Hs Hg Hh) in H. discriminate.
        -- rewrite (sign_no_generator imp k h s val Hs Hh Hg) in H. discriminate.
      * rewrite (sign_bad_hash imp k h s Hs Hh) in H. discriminate.
    + intros Hs. by rewrite sign_not_private.
  - intros Hs. by rewrite sign_not_private.
  - intros s val (class_ & se & g0 & pp & h0 & pu & ic & ps & k0 & Hinit & Hsame) Hs Hh.
    destruct Hsame as (_ & _ & Hsec & Hgen & _).
    destruct (init_shapes _ _ _ _ _ _ _ _ _ Hinit) as (_ & Hg & Hse & _ & Hshape).
    rewrite <- Hsec, Hse in Hs. subst se.
    destruct Hshape as [(s' & g' & [= <-] & -> & _)
                       |[(p & [=] & _)|(h160 & [=] & _)]].
    exists g'. split; [congruence|].
    apply sign_private; [congruence|congruence|exact Hh].
Qed.

Lemma X4_sign_requires_secret_exponent_witness :
  state (Key.sign Toy.imports (Toy.message 5) Toy.hash_only_key) = Toy.hash_only_key
  /\ calls (Key.sign Toy.imports (Toy.message 5) Toy.hash_only_key) = [].
Proof.
  apply (proj1 (proj2 (X4_sign_requires_secret_exponent Toy.imports
                         Toy.hash_only_key (Toy.message 5)))).
  reflexivity.
Defined.

(** X5.  [verify] raises the generator error exactly when neither an
    override nor the Key's own generator is there, and then it has read
    and decoded nothing; an override, when given, is the generator that
    verifies, whatever generator the Key holds. *)
Theorem X5_verify_generator_resolution :
  forall imp k h sig generator,
    (value (Key.verify imp h sig generator k) = Raise (ValueError verify_generator_msg)
     <-> generator = None /\ Key._generator k = None)
    /\ (generator = None -> Key._generator k = None ->
        state (Key.verify imp h sig generator k) = k
        /\ calls (Key.verify imp h sig generator k) = [])
    /\ (forall g p val rs,
        generator = Some g ->
        Key._public_pair k = Some p ->
        Imports.from_bytes_32 imp h = Some val ->
        Imports.sigdecode_der imp sig = Some rs ->
        Key.verify imp h sig generator k
        = Outcome (Ok (Generator.verify g p val rs)) k
            [call_from_bytes_32 h; call_sigdecode_der sig; call_verify p val rs]).
Proof.
  intros imp k h sig generator. split; [|split].
  - split.
    + intros H.
      destruct (resolved_generator generator k) as [g|] eqn:Hg;
        [|by destruct generator].
      destruct (Imports.from_bytes_32 imp h) as [val|] eqn:Hh;
        [|rewrite (verify_bad_hash imp k h sig generator g Hg Hh) in H; discriminate].
      destruct (Imports.sigdecode_der imp sig) as [rs|] eqn:Hsig;
        [|rewrite (verify_bad_signature imp k h sig generator g val Hg Hh Hsig) in H;
          discriminate].
      destruct (Key._public_pair k) as [p|] eqn:Hp.
      * rewrite (verify_with_public_pair imp k h sig generator g val rs p Hp Hg Hh Hsig)
          in H. discriminate.
      * destruct (verify_hash_only imp k h sig generator g val rs Hp Hg Hh Hsig)
          as (cmp & _ & Hv). rewrite Hv in H. discriminate.
    + intros [-> Hg]. by rewrite verify_no_generator.
  - intros -> Hg. by rewrite verify_no_generator.
  - intros g p val rs -> Hp Hh Hsig.
    by apply verify_with_public_pair.
Qed.

Lemma X5_verify_generator_resolution_witness :
  let k := stripped Toy.private_key in
  state (Key.verify Toy.imports (Toy.message 5) Toy.signature None k) = k
  /\ calls (Key.verify Toy.imports (Toy.message 5) Toy.signature None k) = [].
Proof.
  intros k.
  apply (proj1 (proj2 (X5_verify_generator_resolution Toy.imports k
                         (Toy.message 5) Toy.signature None)));
    reflexivity.
Defined.

(** X6.  [verify] never returns [true] on its own authority: whenever it
    does, a generator was resolved, the hash was read, the signature
    decoded, and the verify primitive was called once and accepted a
    point, which is the Key's public pair or, for a Key without one, a
    recovered candidate whose compressed or uncompressed short hash is the
    value of [hash160()]. *)
Theorem X6_verify_true_is_accepted_by_primitive :
  forall imp k h sig generator,
    value (Key.verify imp h sig generator k) = Ok true ->
    exists g val rs p,
      resolved_generator generator k = Some g
      /\ Imports.from_bytes_32 imp h = Some val
      /\ Imports.sigdecode_der imp sig = Some rs
      /\ Generator.verify g p val rs = true
      /\ List.filter is_verify_call (calls (Key.verify imp h sig generator k))
         = [call_verify p val rs]
      /\ match Key._public_pair k with
         | Some p' => p = p'
         | None =>
             In p (Generator.possible_public_pairs_for_signature g val rs)
             /\ matches_identity imp (slot (Key._prefer_uncompressed k) k) p = true
         end.
Proof.
  intros imp k h sig generator H.
  destruct (resolved_generator generator k) as [g|] eqn:Hg;
    [|rewrite verify_no_generator in H by exact Hg; discriminate].
  destruct (Imports.from_bytes_32 imp h) as [val|] eqn:Hh;
    [|rewrite (verify_bad_hash imp k h sig generator g Hg Hh) in H; discriminate].
  destruct (Imports.sigdecode_der imp sig) as [rs|] eqn:Hsig;
    [|rewrite (verify_bad_signature imp k h sig generator g val Hg Hh Hsig) in H;
      discriminate].
  exists g, val, rs.
  destruct (Key._public_pair k) as [p|] eqn:Hp.
  - rewrite (verify_with_public_pair imp k h sig generator g val rs p Hp Hg Hh Hsig)
      in H |- *.
    exists p. cbn in H. injection H as H. by repeat split.
  - destruct (verify_hash_only imp k h sig generator g val rs Hp Hg Hh Hsig)
      as (cmp & Hcmp & Hv).
    rewrite Hv in H |- *. cbn [value calls] in *.
    unfold verify_by_recovery in H.
    destruct (first_match imp (slot (Key._prefer_uncompressed k) k)
                (Generator.possible_public_pairs_for_signature g val rs))
      as [c|] eqn:Hfind; [|discriminate].
    injection H as H. exists c.
    apply List.find_some in Hfind as [Hin Hmatch].
    repeat split; try done.
    cbn [List.filter app is_verify_call]. rewrite List.filter_app.
    rewrite (filter_comparisons _ cmp) by (try exact Hcmp; by intros []).
    reflexivity.
Qed.

Lemma X6_verify_true_is_accepted_by_primitive_witness :
  exists g val rs p,
    resolved_generator None Toy.hash_only_key = Some g
    /\ Imports.from_bytes_32 Toy.imports (Toy.message 5) = Some val
    /\ Imports.sigdecode_der Toy.imports Toy.signature = Some rs
    /\ Generator.verify g p val rs = true
    /\ List.filter is_verify_call
         (calls (Key.verify Toy.imports (Toy.message 5) Toy.signature None
                   Toy.hash_only_key))
       = [call_verify p val rs]
    /\ match Key._public_pair Toy.hash_only_key with
       | Some p' => p = p'
       | None =>
           In p (Generator.possible_public_pairs_for_signature g val rs)
           /\ matches_identity Toy.imports
                (slot (Key._prefer_uncompressed Toy.hash_only_key) Toy.hash_only_key)
                p = true
       end.
Proof.
  apply (X6_verify_true_is_accepted_by_primitive Toy.imports Toy.hash_only_key
           (Toy.message 5) Toy.signature None).
  reflexivity.
Defined.

(** X7.  A signature that does not decode never yields a boolean: [verify]
    raises, leaves the Key as it is, and has made no recovery call and no
    call of the verify primitive.  The hash is read first, so with a
    generator at hand the error is that of the hash when both are bad, and
    that of the decoder otherwise. *)
Theorem X7_verify_raises_on_malformed_signature :
  forall imp k h sig generator,
    Imports.sigdecode_der imp sig = None ->
    (exists e, value (Key.verify imp h sig generator k) = Raise e)
    /\ state (Key.verify imp h sig generator k) = k
    /\ List.filter is_recovery_call (calls (Key.verify imp h sig generator k)) = []
    /\ List.filter is_verify_call (calls (Key.verify imp h sig generator k)) = []
    /\ (forall g,
        resolved_generator generator k = Some g ->
        value (Key.verify imp h sig generator k)
        = Raise (ImportedError
                   (if is_None (Imports.from_bytes_32 imp h) then "from_bytes_32"
                    else "sigdecode_der"))).
Proof.
  intros imp k h sig generator Hsig.
  destruct (resolved_generator generator k) as [g|] eqn:Hg.
  - destruct (Imports.from_bytes_32 imp h) as [val|] eqn:Hh.
    + rewrite (verify_bad_signature imp k h sig generator g val Hg Hh Hsig).
      cbn. repeat split; eauto.
    + rewrite (verify_bad_hash imp k h sig generator g Hg Hh).
      cbn. repeat split; eauto.
  - rewrite (verify_no_generator imp k h sig generator Hg).
    cbn. repeat split; eauto. intros ? [=].
Qed.

Lemma X7_verify_raises_on_malformed_signature_witness :
  value (Key.verify Toy.imports (Toy.message 5) [x03] None Toy.private_key)
  = Raise (ImportedError "sigdecode_der").
Proof.
  apply (proj2 (proj2 (proj2 (proj2
           (X7_verify_raises_on_malformed_signature Toy.imports Toy.private_key
              (Toy.message 5) [x03] None eq_refl))))
           Toy.generator eq_refl).
Defined.

(** * Further properties of the accessors *)

Section accessor_cases.

Variable imp : Imports.t.

Lemma wif_not_private u prefix k :
  Key._secret_exponent k = None ->
  Key.wif imp u prefix k = Outcome (Ok None) k [].
Proof.
  intros Hs. unfold Key.wif. mpure. by rewrite Hs.
Qed.

Lemma wif_private u prefix k s :
  Key._secret_exponent k = Some s ->
  Key.wif imp u prefix k
  = match or_bytes prefix (Key.wif_prefix (Key.__class__ k)) with
    | None => Outcome (Raise (ValueError wif_prefix_msg)) k []
    | Some pre =>
        Outcome (Ok (Some (Imports.secret_exponent_to_wif imp s (negb (variant u k)) pre)))
          k [call_secret_exponent_to_wif s (negb (variant u k)) pre]
    end.
Proof.
  intros Hs. unfold Key.wif. mpure. rewrite Hs. mpure.
  destruct (or_bytes prefix (Key.wif_prefix (Key.__class__ k))); [|reflexivity].
  mpure. reflexivity.
Qed.

Lemma sec_no_pair u k :
  Key._public_pair k = None -> Key.sec imp u k = Outcome (Ok None) k [].
Proof.
  intros Hp. unfold Key.sec. mpure. by rewrite Hp.
Qed.

Lemma sec_as_hex_no_pair u prefix k :
  Key._public_pair k = None ->
  Key.sec_as_hex imp u prefix k = Outcome (Ok None) k [].
Proof.
  intros Hp. unfold Key.sec_as_hex.
  by erewrite bind_pure by (apply sec_no_pair; exact Hp).
Qed.

Lemma sec_as_hex_pair u prefix k p :
  Key._public_pair k = Some p ->
  let b := Imports.public_pair_to_sec imp p (negb (variant u k)) in
  Key.sec_as_hex imp u prefix k
  = match (if is_None prefix then Key.sec_prefix (Key.__class__ k) else prefix) with
    | None =>
        Outcome (Raise (ValueError sec_prefix_msg)) k
          [call_public_pair_to_sec p (negb (variant u k))]
    | Some pre =>
        Outcome (Ok (Some (pre +:+ Imports.b2h imp b))) k
          [call_public_pair_to_sec p (negb (variant u k)); call_b2h b]
    end.
Proof.
  intros Hp b. unfold Key.sec_as_hex.
  erewrite bind_step by (apply sec_spec; exact Hp). cbv beta iota.
  repeat mpure. cbv zeta.
  destruct (if is_None prefix then Key.sec_prefix (Key.__class__ k) else prefix);
    reflexivity.
Qed.

(** What [hash160] does, in all cases. *)
Lemma hash160_cases u k :
  Key.hash160 imp u k
  = match Key._public_pair k, slot (variant u k) k with
    | Some p, None =>
        let b := Imports.public_pair_to_sec imp p (negb (variant u k)) in
        Outcome (Ok (Some (Imports.hash160 imp b)))
          (fill (variant u k) k (Imports.hash160 imp b))
          [call_public_pair_to_sec p (negb (variant u k)); call_hash160 b]
    | _, r => Outcome (Ok r) k []
    end.
Proof.
  destruct (Key._public_pair k) as [p|] eqn:Hp.
  - destruct (slot (variant u k) k) as [v|] eqn:Hs.
    + by apply hash160_cached.
    + by apply hash160_first.
  - by apply hash160_hash_only.
Qed.

(** [address] after [hash160]: nothing to encode, no prefix, or the
    address. *)
Lemma address_after_hash160 u prefix k r k' log :
  Key.hash160 imp u k = Outcome (Ok r) k' log ->
  Key.address imp u prefix k
  = match r with
    | Some (b :: bs) =>
        match or_bytes prefix (Key.address_prefix (Key.__class__ k')) with
        | None => Outcome (Raise (ValueError address_prefix_msg)) k' log
        | Some pre =>
            Outcome
              (Ok (Some (Imports.hash160_sec_to_bitcoin_address imp (b :: bs) pre)))
              k' (log ++ [call_hash160_sec_to_bitcoin_address (b :: bs) pre])
        end
    | _ => Outcome (Ok None) k' (log ++ [])
    end.
Proof.
  intros H. unfold Key.address.
  erewrite bind_step by exact H. cbn beta.
  destruct r as [[|b bs]|]; cbn [truthy_bytes]; try reflexivity.
  mpure.
  destruct (or_bytes prefix (Key.address_prefix (Key.__class__ k')));
    cbn; rewrite ?app_nil_r; reflexivity.
Qed.

End accessor_cases.

(** X8.  [wif] returns [None] for a Key without a secret exponent, whether
    or not a prefix is configured.  For a private Key the prefix is the
    argument if it is non-empty and the class attribute otherwise, so that
    an empty argument is the same as none; without a prefix it raises,
    having called nothing, and with one it returns the encoding of the
    secret exponent, flagged compressed unless the uncompressed variant is
    asked for or preferred. *)
Theorem X8_wif_prefix_resolution :
  forall imp u prefix k,
    (Key._secret_exponent k = None ->
     Key.wif imp u prefix k = Outcome (Ok None) k [])
    /\ (forall s,
        Key._secret_exponent k = Some s ->
        Key.wif imp u prefix k
        = match or_bytes prefix (Key.wif_prefix (Key.__class__ k)) with
          | None => Outcome (Raise (ValueError wif_prefix_msg)) k []
          | Some pre =>
              Outcome
                (Ok (Some (Imports.secret_exponent_to_wif imp s
                             (negb (variant u k)) pre)))
                k [call_secret_exponent_to_wif s (negb (variant u k)) pre]
          end)
    /\ Key.wif imp u (Some []) k = Key.wif imp u None k.
Proof.
  intros imp u prefix k. split; [|split].
  - by apply wif_not_private.
  - by apply wif_private.
  - destruct (Key._secret_exponent k) as [s|] eqn:Hs.
    + by rewrite !(wif_private imp _ _ k s Hs).
    + by rewrite !wif_not_private.
Qed.

Lemma X8_wif_prefix_resolution_witness :
  Key.wif Toy.imports None (Some [x80]) Toy.private_key
  = Outcome (Ok (Some (Imports.secret_exponent_to_wif Toy.imports 4 true [x80])))
      Toy.private_key [call_secret_exponent_to_wif 4 true [x80]]
  /\ Key.wif Toy.imports None None Toy.hash_only_key
     = Outcome (Ok None) Toy.hash_only_key [].
Proof.
  split.
  - apply (proj1 (proj2 (X8_wif_prefix_resolution Toy.imports None (Some [x80])
                           Toy.private_key)) 4).
    reflexivity.
  - apply (proj1 (X8_wif_prefix_resolution Toy.imports None None Toy.hash_only_key)).
    reflexivity.
Defined.

(** X9.  [sec_as_hex] returns [None] for a Key without a public pair,
    whether or not a prefix is configured.  With a public pair it encodes
    the pair first and looks for the prefix afterwards: the argument
    unless it is [None], else the class attribute.  An empty string given
    as prefix is therefore used as it is, and the call cannot raise. *)
Theorem X9_sec_as_hex_prefix_resolution :
  forall imp u prefix k,
    (Key._public_pair k = None ->
     Key.sec_as_hex imp u prefix k = Outcome (Ok None) k [])
    /\ (forall p,
        Key._public_pair k = Some p ->
        let b := Imports.public_pair_to_sec imp p (negb (variant u k)) in
        Key.sec_as_hex imp u prefix k
        = match (if is_None prefix then Key.sec_prefix (Key.__class__ k)
                 else prefix) with
          | None =>
              Outcome (Raise (ValueError sec_prefix_msg)) k
                [call_public_pair_to_sec p (negb (variant u k))]
          | Some pre =>
              Outcome (Ok (Some (pre +:+ Imports.b2h imp b))) k
                [call_public_pair_to_sec p (negb (variant u k)); call_b2h b]
          end)
    /\ (forall p,
        Key._public_pair k = Some p ->
        value (Key.sec_as_hex imp u (Some "") k)
        = Ok (Some (Imports.b2h imp
                      (Imports.public_pair_to_sec imp p (negb (variant u k)))))).
Proof.
  intros imp u prefix k. split; [|split].
  - by apply sec_as_hex_no_pair.
  - intros p Hp. by apply sec_as_hex_pair.
  - intros p Hp. by rewrite (sec_as_hex_pair imp u (Some "") k p Hp).
Qed.

Lemma X9_sec_as_hex_prefix_resolution_witness :
  value (Key.sec_as_hex Toy.imports None (Some "") Toy.private_key)
  = Ok (Some (Imports.b2h Toy.imports
                (Imports.public_pair_to_sec Toy.imports (Some 4, Some 5) true)))
  /\ Key.sec_as_hex Toy.imports None None Toy.hash_only_key
     = Outcome (Ok None) Toy.hash_only_key [].
Proof.
  split.
  - apply (proj2 (proj2 (X9_sec_as_hex_prefix_resolution Toy.imports None None
                           Toy.private_key)) (Some 4, Some 5)).
    reflexivity.
  - apply (proj1 (X9_sec_as_hex_prefix_resolution Toy.imports None None
                    Toy.hash_only_key)).
    reflexivity.
Defined.

Lemma hash160_returns imp u k :
  exists r k' log,
    Key.hash160 imp u k = Outcome (Ok r) k' log
    /\ Key.__class__ k' = Key.__class__ k.
Proof.
  rewrite hash160_cases.
  destruct (Key._public_pair k) as [p|], (slot (variant u k) k) as [v|];
    cbv zeta; do 3 eexists; (split; [reflexivity|]); try reflexivity.
  unfold fill. by destruct (variant u k).
Qed.

(** X10.  [address] changes the Key exactly as [hash160] does, also when
    it raises: the short hash computed on the way stays memoized.  It
    raises the prefix error exactly when there is a non-empty short hash
    to encode and neither a non-empty argument nor a class attribute gives
    a prefix; without a short hash it returns [None] and needs no prefix;
    otherwise it returns the encoding of the short hash. *)
Theorem X10_address_cases :
  forall imp u prefix k r,
    value (Key.hash160 imp u k) = Ok r ->
    state (Key.address imp u prefix k) = state (Key.hash160 imp u k)
    /\ (value (Key.address imp u prefix k) = Raise (ValueError address_prefix_msg)
        <-> truthy_bytes r = true
            /\ or_bytes prefix (Key.address_prefix (Key.__class__ k)) = None)
    /\ (truthy_bytes r = false ->
        value (Key.address imp u prefix k) = Ok None)
    /\ (forall h pre,
        r = Some h -> truthy_bytes r = true ->
        or_bytes prefix (Key.address_prefix (Key.__class__ k)) = Some pre ->
        value (Key.address imp u prefix k)
        = Ok (Some (Imports.hash160_sec_to_bitcoin_address imp h pre))).
Proof.
  intros imp u prefix k r Hr.
  destruct (hash160_returns imp u k) as (r' & k' & log & Hh & Hclass).
  rewrite Hh in Hr. cbn in Hr. injection Hr as ->.
  rewrite (address_after_hash160 imp u prefix k r k' log Hh), Hh, Hclass.
  cbn [state].
  destruct r as [[|b bs]|]; cbn [truthy_bytes].
  - repeat split; try done; intros; try discriminate. by destruct H.
  - destruct (or_bytes prefix (Key.address_prefix (Key.__class__ k))) as [pre|];
      cbn; repeat split; try done; intros; try discriminate.
    + by destruct H.
    + congruence.
  - repeat split; try done; intros; try discriminate. by destruct H.
Qed.

Lemma X10_address_cases_witness :
  state (Key.address Toy.imports None None Toy.private_key)
  = state (Key.hash160 Toy.imports None Toy.private_key)
  /\ value (Key.address Toy.imports None None Toy.private_key)
     = Raise (ValueError address_prefix_msg)
  /\ populated (state (Key.address Toy.imports None None Toy.private_key))
     = (false, true).
Proof.
  destruct (X10_address_cases Toy.imports None None Toy.private_key
              (Some Toy.short_hash) eq_refl) as (Hs & Hr & _).
  split; [exact Hs|]. split; [|reflexivity].
  apply Hr. split; reflexivity.
Defined.

Section as_text_cases.

Variable imp : Imports.t.

Lemma as_text_private a sp w k s :
  Key._secret_exponent k = Some s -> s <> 0 ->
  Key.as_text imp a sp w k = Key.wif imp None w k.
Proof.
  intros Hs Hnz. unfold Key.as_text. mpure. rewrite Hs. cbn [truthy_int].
  destruct (s =? 0) eqn:E; [lia|reflexivity].
Qed.

Lemma as_text_hash_only a sp w k :
  truthy_int (Key._secret_exponent k) = false ->
  Key._public_pair k = None ->
  Key.as_text imp a sp w k = Key.address imp None a k.
Proof.
  intros Hs Hp. unfold Key.as_text. mpure. rewrite Hs.
  by erewrite bind_pure by (apply sec_as_hex_no_pair; exact Hp).
Qed.

Lemma as_text_public a sp w k p :
  truthy_int (Key._secret_exponent k) = false ->
  Key._public_pair k = Some p ->
  let b := Imports.public_pair_to_sec imp p (negb (Key._prefer_uncompressed k)) in
  Key.as_text imp a sp w k
  = match (if is_None sp then Key.sec_prefix (Key.__class__ k) else sp) with
    | None =>
        Outcome (Raise (ValueError sec_prefix_msg)) k
          [call_public_pair_to_sec p (negb (Key._prefer_uncompressed k))]
    | Some pre =>
        if truthy_str (Some (pre +:+ Imports.b2h imp b)) then
          Outcome (Ok (Some (pre +:+ Imports.b2h imp b))) k
            [call_public_pair_to_sec p (negb (Key._prefer_uncompressed k));
             call_b2h b]
        else
          let o := Key.address imp None a k in
          Outcome (value o) (state o)
            ([call_public_pair_to_sec p (negb (Key._prefer_uncompressed k));
              call_b2h b] ++ calls o)
    end.
Proof.
  intros Hs Hp b. unfold Key.as_text. mpure. rewrite Hs.
  pose proof (sec_as_hex_pair imp None sp k p Hp) as Hhex.
  cbn [variant] in Hhex. cbv zeta in Hhex. fold b in Hhex.
  destruct (if is_None sp then Key.sec_prefix (Key.__class__ k) else sp) as [pre|].
  - erewrite bind_step by exact Hhex. cbv beta.
    destruct (truthy_str (Some (pre +:+ Imports.b2h imp b))); reflexivity.
  - unfold mbind, M_bind. by rewrite Hhex.
Qed.

End as_text_cases.

(** X11.  [as_text] of a Key that came out of the constructor is its WIF
    when it is private, whatever the other prefixes; for a Key that has a
    public pair only it is the prefixed hex of the encoding in the
    preferred variant, and no address is computed, provided that text is
    not empty; for a Key that has neither it is its address. *)
Theorem X11_as_text_best_available_form :
  forall imp a sp w k,
    constructed k ->
    (forall s, Key._secret_exponent k = Some s ->
               Key.as_text imp a sp w k = Key.wif imp None w k)
    /\ (forall p pre,
        Key._secret_exponent k = None ->
        Key._public_pair k = Some p ->
        (if is_None sp then Key.sec_prefix (Key.__class__ k) else sp) = Some pre ->
        let b := Imports.public_pair_to_sec imp p (negb (Key._prefer_uncompressed k)) in
        truthy_str (Some (pre +:+ Imports.b2h imp b)) = true ->
        Key.as_text imp a sp w k
        = Outcome (Ok (Some (pre +:+ Imports.b2h imp b))) k
            [call_public_pair_to_sec p (negb (Key._prefer_uncompressed k));
             call_b2h b])
    /\ (Key._secret_exponent k = None ->
        Key._public_pair k = None ->
        Key.as_text imp a sp w k = Key.address imp None a k).
Proof.
  intros imp a sp w k Hc. split; [|split].
  - intros s Hs. apply as_text_private with s; [exact Hs|].
    destruct Hc as (class_ & se & g0 & pp & h0 & pu & ic & ps & k0 & Hinit & Hsame).
    destruct Hsame as (_ & _ & Hsec & _).
    destruct (init_shapes _ _ _ _ _ _ _ _ _ Hinit) as (_ & _ & Hse & _ & Hshape).
    rewrite <- Hsec, Hse in Hs. subst se.
    destruct Hshape as [(s' & g' & [= <-] & _ & _ & _ & [Hlo _] & _)
                       |[(p & [=] & _)|(h160 & [=] & _)]].
    lia.
  - intros p pre Hs Hp Hpre b Ht.
    rewrite (as_text_public imp a sp w k p) by (try done; by rewrite Hs).
    rewrite Hpre. fold b. by rewrite Ht.
  - intros Hs Hp. apply as_text_hash_only; [by rewrite Hs|exact Hp].
Qed.

Lemma X11_as_text_best_available_form_witness :
  Key.as_text Toy.imports None None (Some [x80]) Toy.private_key
  = Key.wif Toy.imports None (Some [x80]) Toy.private_key
  /\ Key.as_text Toy.imports (Some [x00]) None None Toy.hash_only_key
     = Key.address Toy.imports None (Some [x00]) Toy.hash_only_key.
Proof.
  assert (Hc : constructed Toy.private_key)
    by (apply (init_constructed Key.Key (Some 4) (Some Toy.generator)
                 None None None None false); reflexivity).
  assert (Hc' : constructed Toy.hash_only_key)
    by (apply (init_constructed Key.Key None (Some Toy.generator) None
                 (Some Toy.short_hash) None (Some true) false); reflexivity).
  split.
  - apply (proj1 (X11_as_text_best_available_form Toy.imports None None
                    (Some [x80]) Toy.private_key Hc) 4).
    reflexivity.
  - apply (proj2 (proj2 (X11_as_text_best_available_form Toy.imports
                           (Some [x00]) None None Toy.hash_only_key Hc')));
      reflexivity.
Defined.

Lemma or_bytes_class_set prefix class_prefix :
  class_prefix <> None -> or_bytes prefix class_prefix <> None.
Proof.
  unfold or_bytes. by destruct prefix as [[|b bs]|]; cbn.
Qed.

Lemma make_subclass_configured class_ w s a :
  configured (Key.make_subclass class_ w s a).
Proof. by repeat split. Qed.

Section configured_class.

Variable imp : Imports.t.
Variable k : Key.t.
Hypothesis Hconf : configured (Key.__class__ k).

Lemma wif_returns u prefix : exists r, value (Key.wif imp u prefix k) = Ok r.
Proof.
  destruct Hconf as (Hw & _ & _).
  destruct (Key._secret_exponent k) as [s|] eqn:Hs.
  - rewrite (wif_private imp u prefix k s Hs).
    pose proof (or_bytes_class_set prefix _ Hw) as Hor.
    destruct (or_bytes prefix (Key.wif_prefix (Key.__class__ k))); [|done].
    by eexists.
  - rewrite wif_not_private by done. by eexists.
Qed.

Lemma sec_as_hex_returns u prefix :
  exists r, value (Key.sec_as_hex imp u prefix k) = Ok r.
Proof.
  destruct Hconf as (_ & Hs & _).
  destruct (Key._public_pair k) as [p|] eqn:Hp.
  - rewrite (sec_as_hex_pair imp u prefix k p Hp).
    destruct prefix as [pre|]; cbn [is_None]; [by eexists|].
    destruct (Key.sec_prefix (Key.__class__ k)); [|done]. by eexists.
  - rewrite sec_as_hex_no_pair by done. by eexists.
Qed.

Lemma address_returns u prefix :
  exists r, value (Key.address imp u prefix k) = Ok r.
Proof.
  destruct Hconf as (_ & _ & Ha).
  destruct (hash160_returns imp u k) as (r & k' & log & Hh & Hclass).
  rewrite (address_after_hash160 imp u prefix k r k' log Hh), Hclass.
  pose proof (or_bytes_class_set prefix _ Ha) as Hor.
  destruct r as [[|b bs]|]; try by eexists.
  destruct (or_bytes prefix (Key.address_prefix (Key.__class__ k))); [|done].
  by eexists.
Qed.

Lemma as_text_returns a sp w :
  exists r, value (Key.as_text imp a sp w k) = Ok r.
Proof.
  destruct (truthy_int (Key._secret_exponent k)) eqn:Ht.
  - destruct (Key._secret_exponent k) as [s|] eqn:Hs; [|discriminate].
    rewrite (as_text_private imp a sp w k s Hs)
      by (cbn in Ht; intros ->; discriminate).
    apply wif_returns.
  - destruct (Key._public_pair k) as [p|] eqn:Hp.
    + rewrite (as_text_public imp a sp w k p Ht Hp).
      destruct Hconf as (_ & Hs & _).
      destruct (address_returns None a) as (r & Hr).
      destruct sp as [pre|]; cbn [is_None].
      * destruct (truthy_str _); by eexists.
      * destruct (Key.sec_prefix (Key.__class__ k)); [|done].
        destruct (truthy_str _); by eexists.
    + rewrite (as_text_hash_only imp a sp w k Ht Hp). apply address_returns.
Qed.

End configured_class.

(** X12.  The class [make_subclass] returns has its three prefixes set, and
    on a Key of such a class the four text accessors never raise,
    whatever their arguments: each returns a text or [None].  On the base
    class, whose prefixes are unset, [wif] of a private Key called without
    a prefix raises. *)
Theorem X12_subclass_accessors_never_raise :
  forall imp class_ w s a k,
    Key.__class__ k = Key.make_subclass class_ w s a ->
    (forall u prefix, exists r, value (Key.wif imp u prefix k) = Ok r)
    /\ (forall u prefix, exists r, value (Key.sec_as_hex imp u prefix k) = Ok r)
    /\ (forall u prefix, exists r, value (Key.address imp u prefix k) = Ok r)
    /\ (forall a' sp wp, exists r, value (Key.as_text imp a' sp wp k) = Ok r)
    /\ (forall k0 s0 u,
        Key.__class__ k0 = Key.Key ->
        Key._secret_exponent k0 = Some s0 ->
        value (Key.wif imp u None k0) = Raise (ValueError wif_prefix_msg)).
Proof.
  intros imp class_ w s a k Hclass.
  assert (Hconf : configured (Key.__class__ k))
    by (rewrite Hclass; apply make_subclass_configured).
  split; [intros; by apply wif_returns|].
  split; [intros; by apply sec_as_hex_returns|].
  split; [intros; by apply address_returns|].
  split; [intros; by apply as_text_returns|].
  intros k0 s0 u Hc Hs. rewrite (wif_private imp u None k0 s0 Hs), Hc.
  reflexivity.
Qed.

Lemma X12_subclass_accessors_never_raise_witness :
  value (Key.wif Toy.imports None None Toy.private_key)
  = Raise (ValueError wif_prefix_msg).
Proof.
  apply (proj2 (proj2 (proj2 (proj2
           (X12_subclass_accessors_never_raise Toy.imports Key.Key [x80] "" [x00]
              {| Key.__class__ := Key.make_subclass Key.Key [x80] "" [x00];
                 Key._prefer_uncompressed := false;
                 Key._secret_exponent := Some 4;
                 Key._generator := Some Toy.generator;
                 Key._public_pair := Some (Some 4, Some 5);
                 Key._hash160_uncompressed := None;
                 Key._hash160_compressed := None |}
              eq_refl)))) Toy.private_key 4 None eq_refl eq_refl).
Defined.

(** * Further properties of [from_sec] and [public_copy] *)

Lemma from_sec_cases imp class_ sec g :
  Key.from_sec imp class_ sec g
  = match Imports.sec_to_public_pair imp sec g with
    | None => Raise (ImportedError "sec_to_public_pair")
    | Some p =>
        if None_in p then Raise InvalidPublicPairError
        else Ok {| Key.__class__ := class_;
                   Key._prefer_uncompressed := negb (Imports.is_sec_compressed imp sec);
                   Key._secret_exponent := None;
                   Key._generator := None;
                   Key._public_pair := Some p;
                   Key._hash160_uncompressed := None;
                   Key._hash160_compressed := None |}
    end.
Proof.
  unfold Key.from_sec.
  destruct (Imports.sec_to_public_pair imp sec g) as [p|]; [|reflexivity].
  destruct (None_in p) eqn:Hp.
  - apply init_public_rejected. by left.
  - rewrite init_public_accepted by (try done; intros; discriminate).
    reflexivity.
Qed.

(** X13.  [from_sec] returns a Key exactly when the bytes decode to a pair
    with both coordinates; the generator it is given serves the decoding
    only: it makes no membership test and the Key keeps no generator.  The
    Key holds the decoded pair and no secret exponent, prefers the
    compressed form exactly when the bytes were a compressed encoding, and
    cannot verify without a generator passed to [verify]. *)
Theorem X13_from_sec_keeps_no_generator :
  forall imp class_ sec g,
    (forall p,
        Imports.sec_to_public_pair imp sec g = Some p ->
        None_in p = false ->
        exists k, Key.from_sec imp class_ sec g = Ok k)
    /\ (forall k,
        Key.from_sec imp class_ sec g = Ok k ->
        exists p,
          Imports.sec_to_public_pair imp sec g = Some p
          /\ None_in p = false
          /\ Key._public_pair k = Some p
          /\ Key._secret_exponent k = None
          /\ Key._generator k = None
          /\ Key.__class__ k = class_
          /\ Key._prefer_uncompressed k = negb (Imports.is_sec_compressed imp sec)
          /\ populated k = (false, false)
          /\ forall h sig,
              Key.verify imp h sig None k
              = Outcome (Raise (ValueError verify_generator_msg)) k []).
Proof.
  intros imp class_ sec g. rewrite from_sec_cases. split.
  - intros p -> ->. by eexists.
  - intros k.
    destruct (Imports.sec_to_public_pair imp sec g) as [p|]; [|discriminate].
    destruct (None_in p) eqn:Hp; [discriminate|].
    intros [= <-]. exists p. cbn. repeat split; done.
Qed.

Lemma X13_from_sec_keeps_no_generator_witness :
  exists k, Key.from_sec Toy.imports Key.Key [x03; x04] Toy.generator = Ok k.
Proof.
  apply (proj1 (X13_from_sec_keeps_no_generator Toy.imports Key.Key [x03; x04]
                  Toy.generator) (Some 4, Some 5));
    reflexivity.
Defined.

(** X14.  Decoding what [sec] encodes gives the Key back, as far as a
    public Key goes: when the decoder inverts the encoder on the Key's
    pair and tells its compression, [from_sec] of the bytes [sec] returns
    is a Key with the same public pair, no secret exponent, and the
    variant of the encoding as its preference. *)
Theorem X14_from_sec_inverts_sec :
  forall imp class_ g u k p,
    Key._public_pair k = Some p ->
    None_in p = false ->
    let c := negb (variant u k) in
    Imports.sec_to_public_pair imp (Imports.public_pair_to_sec imp p c) g = Some p ->
    Imports.is_sec_compressed imp (Imports.public_pair_to_sec imp p c) = c ->
    exists sec k',
      value (Key.sec imp u k) = Ok (Some sec)
      /\ Key.from_sec imp class_ sec g = Ok k'
      /\ Key._public_pair k' = Some p
      /\ Key._secret_exponent k' = None
      /\ Key._prefer_uncompressed k' = variant u k
      /\ value (Key.sec imp None k') = Ok (Some sec).
Proof.
  intros imp class_ g u k p Hp Hn c Hdec Hcomp. subst c.
  exists (Imports.public_pair_to_sec imp p (negb (variant u k))).
  rewrite (sec_spec imp u k p Hp).
  rewrite from_sec_cases, Hdec, Hn, Hcomp, negb_involutive.
  eexists. split; [reflexivity|]. split; [reflexivity|].
  split; [reflexivity|]. split; [reflexivity|]. split; [reflexivity|].
  by erewrite sec_spec by reflexivity.
Qed.

Lemma X14_from_sec_inverts_sec_witness :
  exists sec k',
    value (Key.sec Toy.imports None Toy.private_key) = Ok (Some sec)
    /\ Key.from_sec Toy.imports Key.Key sec Toy.generator = Ok k'
    /\ Key._public_pair k' = Some (Some 4, Some 5)
    /\ Key._secret_exponent k' = None
    /\ Key._prefer_uncompressed k' = variant None Toy.private_key
    /\ value (Key.sec Toy.imports None k') = Ok (Some sec).
Proof.
  apply (X14_from_sec_inverts_sec Toy.imports Key.Key Toy.generator None
           Toy.private_key (Some 4, Some 5));
    reflexivity.
Defined.

(** With an override, [verify] looks at nothing of a Key but its public
    pair. *)
Lemma verify_override_by_pair imp h sig g k1 k2 p :
  Key._public_pair k1 = Some p ->
  Key._public_pair k2 = Some p ->
  value (Key.verify imp h sig (Some g) k1) = value (Key.verify imp h sig (Some g) k2)
  /\ calls (Key.verify imp h sig (Some g) k1) = calls (Key.verify imp h sig (Some g) k2).
Proof.
  intros H1 H2.
  destruct (Imports.from_bytes_32 imp h) as [val|] eqn:Hh.
  - destruct (Imports.sigdecode_der imp sig) as [rs|] eqn:Hsig.
    + by rewrite (verify_with_public_pair imp k1 h sig (Some g) g val rs p),
        (verify_with_public_pair imp k2 h sig (Some g) g val rs p).
    + by rewrite (verify_bad_signature imp k1 h sig (Some g) g val),
        (verify_bad_signature imp k2 h sig (Some g) g val).
  - by rewrite (verify_bad_hash imp k1 h sig (Some g) g),
      (verify_bad_hash imp k2 h sig (Some g) g).
Qed.

(** X15.  The public copy of a private Key is a public Key for good:
    copying it again returns the copy itself and allocates nothing, it
    cannot sign, and, as the generator is not copied, it cannot verify
    unless a generator is passed; given one, it answers exactly as the
    original does, with the same calls. *)
Theorem X15_public_copy_of_private_key :
  forall imp (h : gmap loc Key.t) l k s,
    h !! l = Some k ->
    constructed k ->
    Key._secret_exponent k = Some s ->
    exists l' k',
      public_copy l h = Outcome (Ok l') (<[l' := k']> h) []
      /\ public_copy l' (<[l' := k']> h) = Outcome (Ok l') (<[l' := k']> h) []
      /\ (forall m, Key.sign imp m k'
                    = Outcome (Raise (RuntimeError not_private_msg)) k' [])
      /\ (forall m sig, Key.verify imp m sig None k'
                        = Outcome (Raise (ValueError verify_generator_msg)) k' [])
      /\ (forall m sig g,
          value (Key.verify imp m sig (Some g) k')
          = value (Key.verify imp m sig (Some g) k)
          /\ calls (Key.verify imp m sig (Some g) k')
             = calls (Key.verify imp m sig (Some g) k)).
Proof.
  intros imp h l k s Hk Hc Hs.
  exists (fresh (dom h)), (stripped k).
  destruct (constructed_private k s Hc Hs) as (p & Hp & _).
  split; [by apply public_copy_private with s|].
  split; [apply public_copy_public with (stripped k);
          [apply lookup_insert_eq|reflexivity]|].
  split; [intros m; by apply sign_not_private|].
  split; [intros m sig; by apply verify_no_generator|].
  intros m sig g. by apply verify_override_by_pair with p.
Qed.

Lemma X15_public_copy_of_private_key_witness :
  exists l' k',
    public_copy 0%nat ({[0%nat := Toy.private_key]} : gmap loc Key.t)
    = Outcome (Ok l') (<[l' := k']> {[0%nat := Toy.private_key]}) []
    /\ public_copy l' (<[l' := k']> {[0%nat := Toy.private_key]})
       = Outcome (Ok l') (<[l' := k']> {[0%nat := Toy.private_key]}) []
    /\ (forall m, Key.sign Toy.imports m k'
                  = Outcome (Raise (RuntimeError not_private_msg)) k' [])
    /\ (forall m sig, Key.verify Toy.imports m sig None k'
                      = Outcome (Raise (ValueError verify_generator_msg)) k' [])
    /\ (forall m sig g,
        value (Key.verify Toy.imports m sig (Some g) k')
        = value (Key.verify Toy.imports m sig (Some g) Toy.private_key)
        /\ calls (Key.verify Toy.imports m sig (Some g) k')
           = calls (Key.verify Toy.imports m sig (Some g) Toy.private_key)).
Proof.
  assert (Hc : constructed Toy.private_key)
    by (apply (init_constructed Key.Key (Some 4) (Some Toy.generator)
                 None None None None false); reflexivity).
  apply (X15_public_copy_of_private_key Toy.imports _ 0%nat Toy.private_key 4);
    [reflexivity|exact Hc|reflexivity].
Defined.

(** * Properties kept through the life of a Key *)

(** Only [hash160] writes: a property of the Key that [hash160] keeps is
    kept by every method, and, if the constructor establishes it, by every
    program on a heap. *)
Section preserved.

Variable imp : Imports.t.
Variable I : Key.t -> Prop.
Hypothesis hash160_preserves : forall u, preserves I (Key.hash160 imp u).
Hypothesis init_establishes :
  forall class_ se g pp h pu ic ps k,
    Key.__init__ class_ se g pp h pu ic ps = Ok k -> I k.

Lemma preserves_ret {A} (a : A) : preserves I (mret a).
Proof. by intros k Hk. Qed.

Lemma preserves_get : preserves I get.
Proof. by intros k Hk. Qed.

Lemma preserves_raise {A} e : preserves I (raise e : M ext_call Key.t A).
Proof. by intros k Hk. Qed.

Lemma preserves_ext {A} c (v : A) : preserves I (ext c v).
Proof. by intros k Hk. Qed.

Lemma preserves_ext_partial {A} c fn (v : option A) :
  preserves I (ext_partial c fn v).
Proof. intros k Hk. unfold ext_partial. by destruct v. Qed.

Lemma preserves_bind {A B} (m : M ext_call Key.t A) (f : A -> M ext_call Key.t B) :
  preserves I m -> (forall a, preserves I (f a)) -> preserves I (m ≫= f).
Proof.
  intros Hm Hf k Hk. specialize (Hm k Hk). unfold mbind, M_bind.
  destruct (m k) as [[a|e] k1 l1]; cbn [state] in *; [|exact Hm].
  specialize (Hf a k1 Hm). by destruct (f a k1) as [v k2 l2].
Qed.

Ltac preserves_step :=
  lazymatch goal with
  | |- preserves _ (mret _) => apply preserves_ret
  | |- preserves _ get => apply preserves_get
  | |- preserves _ (raise _) => apply preserves_raise
  | |- preserves _ (ext _ _) => apply preserves_ext
  | |- preserves _ (ext_partial _ _ _) => apply preserves_ext_partial
  | |- preserves _ (Key.hash160 _ _) => apply hash160_preserves
  | |- preserves _ (_ ≫= _) => apply preserves_bind; [|intros ?]
  | |- preserves _ (if _ then _ else _) => case_match
  | |- preserves _ (match _ with _ => _ end) => case_match
  | |- preserves _ _ => first [progress cbv zeta | solve [auto]]
  end.

Lemma preserves_use_uncompressed u : preserves I (Key._use_uncompressed u).
Proof. unfold Key._use_uncompressed. repeat preserves_step. Qed.

Lemma preserves_secret_exponent : preserves I Key.secret_exponent.
Proof. unfold Key.secret_exponent. repeat preserves_step. Qed.

Lemma preserves_public_pair : preserves I Key.public_pair.
Proof. unfold Key.public_pair. repeat preserves_step. Qed.

Lemma preserves_is_private : preserves I Key.is_private.
Proof. unfold Key.is_private, Key.secret_exponent. repeat preserves_step. Qed.

Lemma preserves_wif u p : preserves I (Key.wif imp u p).
Proof.
  pose proof preserves_use_uncompressed. pose proof preserves_secret_exponent.
  unfold Key.wif. repeat preserves_step.
Qed.

Lemma preserves_sec u : preserves I (Key.sec imp u).
Proof.
  pose proof preserves_use_uncompressed. pose proof preserves_public_pair.
  unfold Key.sec. repeat preserves_step.
Qed.

Lemma preserves_sec_as_hex u p : preserves I (Key.sec_as_hex imp u p).
Proof. pose proof preserves_sec. unfold Key.sec_as_hex. repeat preserves_step. Qed.

Lemma preserves_address u p : preserves I (Key.address imp u p).
Proof. unfold Key.address. repeat preserves_step. Qed.

Lemma preserves_as_text a s w : preserves I (Key.as_text imp a s w).
Proof.
  pose proof preserves_secret_exponent. pose proof preserves_wif.
  pose proof preserves_sec_as_hex. pose proof preserves_address.
  unfold Key.as_text. repeat preserves_step.
Qed.

Lemma preserves_sign h : preserves I (Key.sign imp h).
Proof.
  pose proof preserves_secret_exponent. pose proof preserves_is_private.
  unfold Key.sign. repeat preserves_step.
Qed.

Lemma preserves_find_pubkey stored candidates :
  preserves I (Key.find_pubkey imp stored candidates).
Proof.
  induction candidates as [|c rest IH]; cbn [Key.find_pubkey];
    repeat preserves_step.
Qed.

Lemma preserves_verify h sig g : preserves I (Key.verify imp h sig g).
Proof.
  pose proof preserves_public_pair. pose proof preserves_find_pubkey.
  unfold Key.verify. repeat preserves_step.
Qed.

Lemma heap_preserves_ret {A} (a : A) :
  heap_preserves I (mret a : M (loc * ext_call) (gmap loc Key.t) A).
Proof. by intros h Hh. Qed.

Lemma heap_preserves_bind {A B}
    (m : M (loc * ext_call) (gmap loc Key.t) A)
    (f : A -> M (loc * ext_call) (gmap loc Key.t) B) :
  heap_preserves I m -> (forall a, heap_preserves I (f a)) ->
  heap_preserves I (m ≫= f).
Proof.
  intros Hm Hf h Hh. specialize (Hm h Hh). unfold mbind, M_bind.
  destruct (m h) as [[a|e] h1 l1]; cbn [state] in *; [|exact Hm].
  specialize (Hf a h1 Hm). by destruct (f a h1) as [v h2 l2].
Qed.

Lemma heap_preserves_on {A} self (m : M ext_call Key.t A) :
  preserves I m -> heap_preserves I (on self m).
Proof.
  intros Hm h Hh. unfold on.
  destruct (h !! self) as [k|] eqn:Hk; cbn [state]; [|exact Hh].
  intros l k'. destruct (decide (self = l)) as [->|Hne].
  - rewrite lookup_insert_eq. intros [= <-]. apply Hm. by apply (Hh l).
  - rewrite lookup_insert_ne by done. apply Hh.
Qed.

Lemma heap_preserves_new r :
  (forall k, r = Ok k -> I k) -> heap_preserves I (new r).
Proof.
  intros Hr h Hh. unfold new. destruct r as [k|e]; cbn [state]; [|exact Hh].
  intros l k'. destruct (decide (fresh (dom h) = l)) as [<-|Hne].
  - rewrite lookup_insert_eq. intros [= <-]. by apply Hr.
  - rewrite lookup_insert_ne by done. apply Hh.
Qed.

Lemma heap_preserves_public_copy self : heap_preserves I (public_copy self).
Proof.
  unfold public_copy.
  apply heap_preserves_bind;
    [apply heap_preserves_on, preserves_secret_exponent|intros s].
  case_match; [apply heap_preserves_ret|].
  apply heap_preserves_bind;
    [apply heap_preserves_on, preserves_public_pair|intros pp].
  apply heap_preserves_bind; [apply heap_preserves_on, preserves_get|intros k].
  apply heap_preserves_new. intros k'. apply init_establishes.
Qed.

Lemma heap_preserves_repr self : heap_preserves I (__repr__ imp self).
Proof.
  unfold __repr__.
  apply heap_preserves_bind; [apply heap_preserves_public_copy|intros c].
  apply heap_preserves_bind;
    [apply heap_preserves_on, preserves_as_text|intros r].
  apply heap_preserves_bind;
    [apply heap_preserves_on, preserves_is_private|intros p].
  case_match; apply heap_preserves_ret.
Qed.

Lemma heap_preserves_invoke self c : heap_preserves I (invoke imp self c).
Proof.
  destruct c; unfold invoke, discard, subkey, subkeys;
    (apply heap_preserves_bind; [|intros ?; apply heap_preserves_ret]);
    first [ apply heap_preserves_public_copy | apply heap_preserves_repr
          | apply heap_preserves_ret | apply heap_preserves_on ];
    auto using preserves_is_private, preserves_secret_exponent, preserves_wif,
      preserves_public_pair, preserves_sec, preserves_sec_as_hex,
      preserves_address, preserves_as_text, preserves_sign, preserves_verify.
Qed.

Lemma run_preserves program : forall (h : gmap loc Key.t) log0,
  heap_all I h -> heap_all I (fst (fold_left (step imp) program (h, log0))).
Proof.
  induction program as [|[self c] program IH]; intros h log0 Hh; [exact Hh|].
  cbn [fold_left].
  change (step imp (h, log0) (self, c))
    with (state (invoke imp self c h), log0 ++ calls (invoke imp self c h)).
  apply IH. by apply heap_preserves_invoke.
Qed.

End preserved.

Lemma coherent_fill imp k p b :
  Key._public_pair k = Some p ->
  coherent imp k ->
  coherent imp
    (fill b k (Imports.hash160 imp (Imports.public_pair_to_sec imp p (negb b)))).
Proof.
  intros Hp Hk p' u v Hp' Hv.
  assert (p' = p) as -> by (destruct b; cbn in Hp'; congruence).
  destruct b, u; cbn in Hv; try (injection Hv as <-; reflexivity);
    by apply (Hk p _ v Hp).
Qed.

Lemma hash160_coherent imp u : preserves (coherent imp) (Key.hash160 imp u).
Proof.
  intros k Hk. rewrite hash160_cases.
  destruct (Key._public_pair k) as [p|] eqn:Hp; [|exact Hk].
  destruct (slot (variant u k) k) as [v|]; [exact Hk|].
  cbv zeta. cbn [state]. by apply coherent_fill.
Qed.

Lemma init_coherent imp class_ se g pp h pu ic ps k :
  Key.__init__ class_ se g pp h pu ic ps = Ok k -> coherent imp k.
Proof.
  intros Hinit p u v Hp Hv.
  destruct (init_shapes _ _ _ _ _ _ _ _ _ Hinit) as (_ & _ & _ & Hpop & Hshape).
  assert (populated k = (false, false)) as Hempty.
  { destruct Hshape as [(? & ? & _ & _ & _ & -> & _)
                       |[(? & _ & _ & -> & _)|(? & _ & _ & _ & Hnone)]];
      [exact Hpop|exact Hpop|congruence]. }
  unfold populated in Hempty. injection Hempty as Hu Hc.
  destruct u; cbn in Hv; rewrite Hv in *; discriminate.
Qed.

(** X16.  The cache is coherent.  The constructor returns a Key whose
    slots are coherent with its public pair, and whatever calls are made
    afterwards, on whatever receivers, every slot of a Key with a public
    pair holds the short hash of the encoding of that pair in the variant
    of the slot.  So [hash160] answers the same at any moment: the short
    hash of the encoding, memoized or not. *)
Theorem X16_memoized_hash_is_hash_of_encoding :
  forall imp,
    (forall class_ se g pp h pu ic ps k,
        Key.__init__ class_ se g pp h pu ic ps = Ok k -> coherent imp k)
    /\ (forall program (h : gmap loc Key.t),
        heap_all (coherent imp) h ->
        heap_all (coherent imp) (fst (run imp program h))
        /\ forall l k p u,
            fst (run imp program h) !! l = Some k ->
            Key._public_pair k = Some p ->
            value (Key.hash160 imp u k)
            = Ok (Some (Imports.hash160 imp
                          (Imports.public_pair_to_sec imp p (negb (variant u k)))))).
Proof.
  intros imp. split; [intros; by eapply init_coherent|].
  intros program h Hh.
  assert (Hrun : heap_all (coherent imp) (fst (run imp program h))).
  { unfold run. apply run_preserves; [apply hash160_coherent| |exact Hh].
    intros. by eapply init_coherent. }
  split; [exact Hrun|].
  intros l k p u Hk Hp. rewrite hash160_cases, Hp.
  destruct (slot (variant u k) k) as [v|] eqn:Hv; [|reflexivity].
  cbn. by rewrite (Hrun l k Hk p _ v Hp Hv).
Qed.

Lemma X16_memoized_hash_is_hash_of_encoding_witness :
  let h := ({[0%nat := Toy.private_key]} : gmap loc Key.t) in
  let program :=
    [(0%nat, call_address None None); (0%nat, call_hash160_method (Some true));
     (0%nat, call_repr)] in
  heap_all (coherent Toy.imports) (fst (run Toy.imports program h)).
Proof.
  intros h program.
  apply (proj2 (X16_memoized_hash_is_hash_of_encoding Toy.imports) program h).
  intros l k Hk p u v Hp Hv.
  apply lookup_singleton_Some in Hk as [_ <-].
  destruct u; discriminate.
Defined.

(** * What [__repr__] shows *)

Section repr_facts.

Variable imp : Imports.t.

Lemma address_secret_free u prefix k :
  forallb secret_free (calls (Key.address imp u prefix k)) = true.
Proof.
  pose proof (hash160_cases imp u k) as Hh.
  destruct (Key._public_pair k) as [p|], (slot (variant u k) k) as [v|];
    cbv zeta in Hh;
    rewrite (address_after_hash160 imp u prefix k _ _ _ Hh);
    repeat case_match; reflexivity.
Qed.

Lemma as_text_secret_free a sp w k :
  truthy_int (Key._secret_exponent k) = false ->
  forallb secret_free (calls (Key.as_text imp a sp w k)) = true.
Proof.
  intros Hs. destruct (Key._public_pair k) as [p|] eqn:Hp.
  - rewrite (as_text_public imp a sp w k p Hs Hp).
    pose proof (address_secret_free None a k) as Ha.
    repeat case_match; cbn; try reflexivity; exact Ha.
  - rewrite (as_text_hash_only imp a sp w k Hs Hp). apply address_secret_free.
Qed.

(** [public_copy] calls nothing, and what it returns has no secret
    exponent. *)
Lemma public_copy_no_secret self (h : gmap loc Key.t) :
  calls (public_copy self h) = []
  /\ forall c, value (public_copy self h) = Ok c ->
               exists k', state (public_copy self h) !! c = Some k'
                          /\ Key._secret_exponent k' = None.
Proof.
  destruct (h !! self) as [k|] eqn:Hk.
  - destruct (Key._secret_exponent k) as [s|] eqn:Hs.
    + unfold public_copy.
      erewrite bind_pure by (eapply on_pure; [exact Hk|reflexivity]).
      rewrite Hs. cbn [is_None].
      erewrite bind_pure by (eapply on_pure; [exact Hk|reflexivity]).
      erewrite bind_pure by (eapply on_pure; [exact Hk|reflexivity]).
      unfold new.
      destruct (Key.__init__ _ _ _ _ _ _ _ _) as [k'|e] eqn:Hinit; cbn;
        [|split; [done|discriminate]].
      split; [done|]. intros c [= <-]. exists k'.
      rewrite lookup_insert_eq. split; [done|].
      by destruct (init_shapes _ _ _ _ _ _ _ _ _ Hinit) as (_ & _ & -> & _).
    + rewrite (public_copy_public h self k Hk Hs). cbn.
      split; [done|]. intros c [= <-]. by exists k.
  - unfold public_copy, on, mbind, M_bind. rewrite Hk. cbn.
    split; [done|discriminate].
Qed.

Lemma calls_bind {E S A B} (m : M E S A) (f : A -> M E S B) s :
  calls ((m ≫= f) s)
  = calls (m s) ++ match value (m s) with
                   | Ok a => calls (f a (state (m s)))
                   | Raise _ => []
                   end.
Proof.
  unfold mbind, M_bind. destruct (m s) as [[a|e] s' l]; cbn.
  - by destruct (f a s').
  - by rewrite app_nil_r.
Qed.

Lemma repr_tail_calls r self (h : gmap loc Key.t) :
  calls ((on self Key.is_private
          ≫= (fun p : bool =>
                if p then mret ("private_for <" +:+ str r +:+ ">")
                else mret ("<" +:+ str r +:+ ">"))) h) = [].
Proof.
  rewrite calls_bind. unfold on.
  destruct (h !! self) as [k|]; [|reflexivity].
  rewrite is_private_spec. cbn.
  by destruct (negb (is_None (Key._secret_exponent k))).
Qed.

Lemma repr_secret_free self (h : gmap loc Key.t) :
  forallb (fun e => secret_free (snd e)) (calls (__repr__ imp self h)) = true.
Proof.
  destruct (public_copy_no_secret self h) as [Hcalls Hcopy].
  unfold __repr__. rewrite calls_bind, Hcalls. cbn [app].
  destruct (value (public_copy self h)) as [c|e]; [|reflexivity].
  destruct (Hcopy c eq_refl) as (k' & Hk' & Hs).
  rewrite calls_bind.
  assert (Hon : calls (on c (Key.as_text imp None (Some "") None)
                         (state (public_copy self h)))
                = map (pair c) (calls (Key.as_text imp None (Some "") None k')))
    by (unfold on; by rewrite Hk').
  rewrite Hon.
  assert (Htail : match value (on c (Key.as_text imp None (Some "") None)
                                 (state (public_copy self h))) with
                  | Ok r =>
                      calls ((on self Key.is_private
                              ≫= (fun p : bool =>
                                    if p then mret ("private_for <" +:+ str r +:+ ">")
                                    else mret ("<" +:+ str r +:+ ">")))
                               (state (on c (Key.as_text imp None (Some "") None)
                                         (state (public_copy self h)))))
                  | Raise _ => []
                  end = []).
  { destruct (value _); [apply repr_tail_calls|reflexivity]. }
  rewrite Htail, app_nil_r.
  pose proof (as_text_secret_free None (Some "") None k') as Hlog.
  rewrite Hs in Hlog. specialize (Hlog eq_refl).
  rewrite forallb_forall in Hlog |- *.
  intros [l0 c0] Hin. apply in_map_iff in Hin as (c1 & [= <- <-] & Hin).
  cbn. by apply Hlog.
Qed.

Lemma repr_private (h : gmap loc Key.t) l k s p :
  h !! l = Some k ->
  constructed k ->
  Key._secret_exponent k = Some s ->
  Key._public_pair k = Some p ->
  let b := Imports.public_pair_to_sec imp p (negb (Key._prefer_uncompressed k)) in
  truthy_str (Some (Imports.b2h imp b)) = true ->
  value (__repr__ imp l h) = Ok ("private_for <" +:+ Imports.b2h imp b +:+ ">")
  /\ calls (__repr__ imp l h)
     = [(fresh (dom h), call_public_pair_to_sec p (negb (Key._prefer_uncompressed k)));
        (fresh (dom h), call_b2h b)].
Proof.
  intros Hk Hc Hs Hp b Ht.
  assert (Hne : fresh (dom h) <> l).
  { intros Heq. apply (is_fresh (dom h)). rewrite Heq.
    apply elem_of_dom. by exists k. }
  unfold __repr__.
  erewrite bind_step by (by apply public_copy_private with s). cbv beta.
  assert (Htext :
    Key.as_text imp None (Some "") None (stripped k)
    = Outcome (Ok (Some (Imports.b2h imp b))) (stripped k)
        [call_public_pair_to_sec p (negb (Key._prefer_uncompressed k)); call_b2h b]).
  { rewrite (as_text_public imp None (Some "") None (stripped k) p)
      by (try reflexivity; exact Hp).
    cbn [is_None]. cbn [Key._prefer_uncompressed stripped]. fold b.
    change ("" +:+ Imports.b2h imp b) with (Imports.b2h imp b).
    by rewrite Ht. }
  unfold on, mbind, M_bind.
  rewrite lookup_insert_eq, Htext. cbn [value state calls].
  rewrite lookup_insert_ne by done. rewrite lookup_insert_ne by done.
  rewrite Hk, is_private_spec, Hs. cbn. split; reflexivity.
Qed.

End repr_facts.

(** X17.  [__repr__] never hands the secret exponent to anything: whatever
    the receiver and the heap, no WIF is computed and nothing is signed,
    because the text is built from the public copy.  For a private Key
    that came out of the constructor the text is ["private_for <"], the
    hex of the encoding of its public pair in the preferred variant, and
    [">"], computed on a fresh copy, provided that hex is not empty. *)
Theorem X17_repr_does_not_use_the_secret :
  forall imp,
    (forall self (h : gmap loc Key.t),
        forallb (fun e => secret_free (snd e)) (calls (__repr__ imp self h)) = true)
    /\ (forall (h : gmap loc Key.t) l k s p,
        h !! l = Some k ->
        constructed k ->
        Key._secret_exponent k = Some s ->
        Key._public_pair k = Some p ->
        let b := Imports.public_pair_to_sec imp p
                   (negb (Key._prefer_uncompressed k)) in
        truthy_str (Some (Imports.b2h imp b)) = true ->
        value (__repr__ imp l h)
        = Ok ("private_for <" +:+ Imports.b2h imp b +:+ ">")
        /\ calls (__repr__ imp l h)
           = [(fresh (dom h),
               call_public_pair_to_sec p (negb (Key._prefer_uncompressed k)));
              (fresh (dom h), call_b2h b)]).
Proof.
  intros imp. split.
  - intros self h. apply repr_secret_free.
  - intros h l k s p Hk Hc Hs Hp b Ht. by apply repr_private with s.
Qed.

Lemma X17_repr_does_not_use_the_secret_witness :
  let h := ({[0%nat := Toy.private_key]} : gmap loc Key.t) in
  let b := Imports.public_pair_to_sec Toy.imports (Some 4, Some 5) true in
  value (__repr__ Toy.imports 0%nat h)
  = Ok ("private_for <" +:+ Imports.b2h Toy.imports b +:+ ">")
  /\ calls (__repr__ Toy.imports 0%nat h)
     = [(fresh (dom h), call_public_pair_to_sec (Some 4, Some 5) true);
        (fresh (dom h), call_b2h b)].
Proof.
  intros h b.
  assert (Hc : constructed Toy.private_key)
    by (apply (init_constructed Key.Key (Some 4) (Some Toy.generator)
                 None None None None false); reflexivity).
  apply (proj2 (X17_repr_does_not_use_the_secret Toy.imports) h 0%nat
           Toy.private_key 4 (Some 4, Some 5));
    [reflexivity|exact Hc|reflexivity|reflexivity|reflexivity].
Defined.

(** * Signatures across the forms of a Key *)

(** A private Key that came out of the constructor, in full. *)
Lemma constructed_private_full k s :
  constructed k -> Key._secret_exponent k = Some s ->
  exists g, Key._generator k = Some g /\ in_order g s
            /\ Key._public_pair k = Some (Generator.mul g s).
Proof.
  intros (class_ & se & g0 & pp & h0 & pu & ic & ps & k0 & Hinit & Hsame) Hs.
  destruct Hsame as (_ & _ & Hsec & Hgen & Hpair).
  destruct (init_shapes _ _ _ _ _ _ _ _ _ Hinit) as (_ & Hg & Hse & _ & Hshape).
  rewrite <- Hsec, Hse in Hs. subst se.
  destruct Hshape as [(s' & g' & [= <-] & -> & _ & _ & Hin & Hp & _)
                     |[(p & [=] & _)|(h160 & [=] & _)]].
  exists g'. split; [congruence|]. split; [exact Hin|congruence].
Qed.

(** X18.  What a private Key signs, its public copy verifies, once it is
    given the generator: the copy calls the verify primitive on the pair
    it took over, and no recovery is made.  The generator is taken to
    accept its own signature for the Key's pair, and DER decoding to
    invert DER encoding on that signature. *)
Theorem X18_public_copy_verifies_signature :
  forall imp (h : gmap loc Key.t) l k s g m val,
    h !! l = Some k ->
    constructed k ->
    Key._secret_exponent k = Some s ->
    Key._generator k = Some g ->
    Imports.from_bytes_32 imp m = Some val ->
    let rs := Generator.sign g s val in
    Imports.sigdecode_der imp (Imports.sigencode_der imp (fst rs) (snd rs)) = Some rs ->
    Generator.verify g (Generator.mul g s) val rs = true ->
    exists sig l' k',
      value (Key.sign imp m k) = Ok sig
      /\ public_copy l h = Outcome (Ok l') (<[l' := k']> h) []
      /\ Key.verify imp m sig (Some g) k'
         = Outcome (Ok true) k'
             [call_from_bytes_32 m; call_sigdecode_der sig;
              call_verify (Generator.mul g s) val rs].
Proof.
  intros imp h l k s g m val Hk Hc Hs Hg Hm rs Hder Hecdsa.
  destruct (constructed_private_full k s Hc Hs) as (g' & Hg' & _ & Hp).
  assert (g' = g) as -> by congruence.
  exists (Imports.sigencode_der imp (fst rs) (snd rs)), (fresh (dom h)), (stripped k).
  rewrite (sign_private imp k m s g val Hs Hg Hm).
  split; [reflexivity|].
  split; [by apply public_copy_private with s|].
  rewrite (verify_with_public_pair imp (stripped k) m _ (Some g) g val rs
             (Generator.mul g s)) by done.
  by rewrite Hecdsa.
Qed.

Lemma X18_public_copy_verifies_signature_witness :
  exists sig l' k',
    value (Key.sign Toy.imports (Toy.message 5) Toy.private_key) = Ok sig
    /\ public_copy 0%nat ({[0%nat := Toy.private_key]} : gmap loc Key.t)
       = Outcome (Ok l') (<[l' := k']> {[0%nat := Toy.private_key]}) []
    /\ Key.verify Toy.imports (Toy.message 5) sig (Some Toy.generator) k'
       = Outcome (Ok true) k'
           [call_from_bytes_32 (Toy.message 5); call_sigdecode_der sig;
            call_verify (Some 4, Some 5) 5 (3, 2)].
Proof.
  assert (Hc : constructed Toy.private_key)
    by (apply (init_constructed Key.Key (Some 4) (Some Toy.generator)
                 None None None None false); reflexivity).
  apply (X18_public_copy_verifies_signature Toy.imports _ 0%nat Toy.private_key
           4 Toy.generator (Toy.message 5) 5);
    [reflexivity|exact Hc|reflexivity|reflexivity|reflexivity|reflexivity
    |reflexivity].
Defined.

Lemma first_match_unique imp stored candidates P :
  In P candidates ->
  matches_identity imp stored P = true ->
  (forall c, In c candidates -> matches_identity imp stored c = true -> c = P) ->
  first_match imp stored candidates = Some P.
Proof.
  intros Hin Hmatch Huniq. unfold first_match.
  destruct (List.find (matches_identity imp stored) candidates) as [c|] eqn:Hfind.
  - apply List.find_some in Hfind as [Hc Hm]. f_equal. by apply Huniq.
  - by rewrite (List.find_none _ _ Hfind P Hin) in Hmatch.
Qed.

(** X19.  A Key that knows a short hash only accepts the signature of the
    Key behind that hash: when the point [P] is among the recovered
    candidates, its compressed or uncompressed short hash is the value of
    [hash160()], no other candidate has that short hash, and the verify
    primitive accepts the signature for [P], then [verify] returns [true],
    having called the primitive once, on [P]. *)
Theorem X19_hash_only_key_accepts_its_signer :
  forall imp k h sig generator g val rs P,
    Key._public_pair k = None ->
    resolved_generator generator k = Some g ->
    Imports.from_bytes_32 imp h = Some val ->
    Imports.sigdecode_der imp sig = Some rs ->
    let stored := slot (Key._prefer_uncompressed k) k in
    let candidates := Generator.possible_public_pairs_for_signature g val rs in
    In P candidates ->
    matches_identity imp stored P = true ->
    (forall c, In c candidates -> matches_identity imp stored c = true -> c = P) ->
    Generator.verify g P val rs = true ->
    value (Key.verify imp h sig generator k) = Ok true
    /\ state (Key.verify imp h sig generator k) = k
    /\ List.filter is_verify_call (calls (Key.verify imp h sig generator k))
       = [call_verify P val rs].
Proof.
  intros imp k h sig generator g val rs P Hp Hg Hh Hsig stored candidates
         Hin Hmatch Huniq Hverify.
  destruct (verify_hash_only imp k h sig generator g val rs Hp Hg Hh Hsig)
    as (cmp & Hcmp & ->).
  cbn [value state calls]. unfold verify_by_recovery.
  fold stored. fold candidates.
  rewrite (first_match_unique imp stored candidates P Hin Hmatch Huniq), Hverify.
  split; [reflexivity|]. split; [reflexivity|].
  cbn [List.filter app is_verify_call]. rewrite List.filter_app.
  by rewrite (filter_comparisons _ cmp) by (try exact Hcmp; by intros []).
Qed.

Lemma X19_hash_only_key_accepts_its_signer_witness :
  value (Key.verify Toy.imports (Toy.message 5) Toy.signature None Toy.hash_only_key)
  = Ok true
  /\ state (Key.verify Toy.imports (Toy.message 5) Toy.signature None
              Toy.hash_only_key) = Toy.hash_only_key
  /\ List.filter is_verify_call
       (calls (Key.verify Toy.imports (Toy.message 5) Toy.signature None
                 Toy.hash_only_key))
     = [call_verify (Some 4, Some 5) 5 (3, 2)].
Proof.
  apply (X19_hash_only_key_accepts_its_signer Toy.imports Toy.hash_only_key
           (Toy.message 5) Toy.signature None Toy.generator 5 (3, 2)
           (Some 4, Some 5));
    try reflexivity.
  - right. left. reflexivity.
  - intros c [<- | [<- | []]] Hm; [discriminate|reflexivity].
Defined.

(** X20.  An empty hash160 counts as supplied but is stored nowhere: the
    constructor returns a Key that holds no secret exponent, no public
    pair and no short hash, and prefers the compressed form by default.
    Such a Key answers [None] to [hash160], [address] and [as_text]
    without needing any prefix, and [verify] never returns [true] on it. *)
Theorem X20_empty_hash160_identifies_nothing :
  forall imp class_ g pu ic ps,
    exists k,
      Key.__init__ class_ None g None (Some []) pu ic ps = Ok k
      /\ Key._secret_exponent k = None
      /\ Key._public_pair k = None
      /\ populated k = (false, false)
      /\ (pu = None -> ic = None -> Key._prefer_uncompressed k = false)
      /\ (forall u, Key.hash160 imp u k = Outcome (Ok None) k [])
      /\ (forall u prefix, Key.address imp u prefix k = Outcome (Ok None) k [])
      /\ (forall a sp w, Key.as_text imp a sp w k = Outcome (Ok None) k [])
      /\ (forall h sig generator,
          value (Key.verify imp h sig generator k) <> Ok true).
Proof.
  intros imp class_ g pu ic ps.
  rewrite init_hash_alone. cbv zeta. cbn [truthy_bytes andb negb].
  eexists. split; [reflexivity|].
  match goal with |- Key._secret_exponent ?k0 = _ /\ _ => set (k := k0) end.
  assert (Hp : Key._public_pair k = None) by reflexivity.
  assert (Hslot : forall b, slot b k = None) by (by intros []).
  assert (Hhash : forall u, Key.hash160 imp u k = Outcome (Ok None) k [])
    by (intros u; rewrite hash160_hash_only by exact Hp; by rewrite Hslot).
  assert (Haddr : forall u prefix, Key.address imp u prefix k = Outcome (Ok None) k [])
    by (intros u prefix;
        by rewrite (address_after_hash160 imp u prefix k _ _ _ (Hhash u))).
  split; [reflexivity|]. split; [reflexivity|]. split; [reflexivity|].
  split; [by intros -> ->|].
  split; [exact Hhash|]. split; [exact Haddr|].
  split.
  - intros a sp w. rewrite as_text_hash_only by reflexivity. apply Haddr.
  - intros h sig generator. by apply verify_unmatched.
Qed.

Lemma X20_empty_hash160_identifies_nothing_witness :
  exists k,
    Key.__init__ Key.Key None None None (Some []) None None false = Ok k
    /\ Key._prefer_uncompressed k = false
    /\ Key.address Toy.imports None None k = Outcome (Ok None) k [].
Proof.
  destruct (X20_empty_hash160_identifies_nothing Toy.imports Key.Key None
              None None false)
    as (k & Hk & _ & _ & _ & Hpref & _ & Haddr & _).
  exists k. split; [exact Hk|]. split; [exact (Hpref eq_refl eq_refl)|].
  apply Haddr.
Defined.
